(** * Pipecat: the Exotel wire serializer and the user-idle watchdog

    A shallow embedding of
    - [examples/exotel-websocket/custom/serializers/exotel.py]
      (class [ExotelFrameSerializer]) and
    - [src/pipecat/processors/user_idle_processor.py]
      (class [UserIdleProcessor]),
    followed by the properties the specification states about them. *)

From Stdlib Require Import ZArith NArith List String Ascii Bool Lia PreOmega.
From Stdlib.Strings Require Import Byte.
From Stdlib Require DecimalString.
Import ListNotations.
Local Open Scope string_scope.
Local Open Scope Z_scope.

(** ** Python values used by both modules *)

Module Py.

(** [bytes] objects. *)
Definition bytes := list byte.

(** The exceptions that can travel through the modelled code. *)
Inductive exn :=
| JSONDecodeError
| KeyError (key : string)
| TypeError
| ValueError
| BinasciiError
| UnicodeDecodeError
| AudioopError
| CancelledError.

(** A call either returns a value or raises. *)
Inductive result (A : Type) :=
| Ok (a : A)
| Raise (e : exn).
Arguments Ok {A} a.
Arguments Raise {A} e.

Definition bind {A B} (r : result A) (k : A -> result B) : result B :=
  match r with
  | Ok a => k a
  | Raise e => Raise e
  end.

(** What [json.loads] builds and [json.dumps] prints.  A [dict] keeps its
    insertion order, so it is a list of bindings; a number that is not an
    integer is kept as its lexeme. *)
#[warnings="-register-all"]
Inductive json :=
| JNull
| JBool (b : bool)
| JInt (n : Z)
| JFloat (lexeme : string)
| JString (s : string)
| JArray (items : list json)
| JObject (fields : list (string * json)).

(** [d.get(k)] on the bindings of a dict. *)
Fixpoint dict_get (k : string) (fields : list (string * json)) : option json :=
  match fields with
  | [] => None
  | (k', v) :: rest => if String.eqb k k' then Some v else dict_get k rest
  end.

(** [v[k]] for a string key [k]: only a dict can be subscripted by a
    string, and a missing key is a [KeyError]. *)
Definition getitem (v : json) (k : string) : result json :=
  match v with
  | JObject fields =>
      match dict_get k fields with
      | Some x => Ok x
      | None => Raise (KeyError k)
      end
  | _ => Raise TypeError
  end.

(** [v != s] for a string literal [s]: values of another type are never
    equal to a string. *)
Definition ne_str (v : json) (s : string) : bool :=
  match v with
  | JString t => negb (String.eqb t s)
  | _ => true
  end.

(** The library functions [exotel.py] imports: [json], [base64],
    [bytes.decode] and the two transcoders of [pipecat.audio.utils].  None
    of them is defined by the modelled files, so the serializer is
    parametrised by them. *)
Class Lib := {
  json_dumps : json -> string;
  json_loads : string -> result json;
  b64encode : bytes -> bytes;
  decode_utf8 : bytes -> result string;
  b64decode : string -> result bytes;
  pcm_to_ulaw : bytes -> Z -> Z -> result bytes;
  ulaw_to_pcm : bytes -> Z -> Z -> result bytes
}.

End Py.

Notation "x <- r ;; k" := (Py.bind r (fun x => k))
  (at level 61, r at next level, right associativity).

(** ** Frames *)

Module Frames.

(** Modelled from the spec: the payload of an [AudioRawFrame] of
    [pipecat.frames.frames], which is not among the modelled files: "PCM
    samples, sample rate, channel count". *)
Record AudioRaw := {
  audio : Py.bytes;
  sample_rate : Z;
  num_channels : Z
}.

(** Modelled from the spec: the frame taxonomy of [pipecat.frames.frames],
    which the two modules import and test with [isinstance]: control frames
    (Start, End, EndTask), system frames (the interruption and speaking
    signals) and data frames (raw audio, text), as one closed variant. *)
Inductive Frame :=
| StartFrame
| EndFrame
| EndTaskFrame
| StartInterruptionFrame
| StopInterruptionFrame
| UserStartedSpeakingFrame
| UserStoppedSpeakingFrame
| BotSpeakingFrame
| AudioRawFrame (a : AudioRaw)
| TextFrame (text : string).

(** Modelled from the spec: [FrameDirection] of
    [pipecat.processors.frame_processor]: a frame travels downstream or
    upstream. *)
Inductive FrameDirection := DOWNSTREAM | UPSTREAM.

(** The number of 16-bit samples per channel in an audio frame. *)
Definition sample_count (a : AudioRaw) : Z :=
  Z.of_nat (List.length (audio a)) / (2 * num_channels a).

End Frames.

(** ** [ExotelFrameSerializer] *)

Module Exotel.
Import Py Frames.

Record InputParams := { sample_rate : Z }.

(** [class InputParams(BaseModel): sample_rate: int = 8000] *)
Definition InputParams_default : InputParams := {| sample_rate := 8000 |}.

Record ExotelFrameSerializer := {
  _stream_sid : string;
  _params : InputParams
}.

(** [__init__(self, stream_sid, params=InputParams())] *)
Definition __init__ (stream_sid : string) (params : option InputParams)
  : ExotelFrameSerializer :=
  {| _stream_sid := stream_sid;
     _params := match params with
                | Some p => p
                | None => InputParams_default
                end |}.

(** The two dict literals of [serialize]. *)
Definition media_message (stream_sid payload : string) : json :=
  JObject [("event", JString "media");
           ("streamSid", JString stream_sid);
           ("media", JObject [("payload", JString payload)])].

Definition clear_message (stream_sid : string) : json :=
  JObject [("event", JString "clear");
           ("streamSid", JString stream_sid)].

(** The number of samples [audioop.ratecv] makes of [n] samples when it
    converts the rate [in_rate] to the rate [out_rate] from a fresh state:
    one for the first sample, and from then on as many as the output clock
    has caught up with. *)
Definition ratecv_count (n in_rate out_rate : Z) : Z :=
  if n <=? 0 then 0 else (n - 1) * out_rate / in_rate + 1.

(** Modelled from the spec: what the round trip relies on in the library.
    The transcoders, [pcm_to_ulaw] and [ulaw_to_pcm] of
    [pipecat.audio.utils], are not among the modelled files; the encoder
    "encodes PCM audio to the external protocol's required audio codec and
    sample rate", with [audioop.ratecv] and [audioop.lin2ulaw], and the
    decoder "decodes the audio codec payload back to PCM", with
    [audioop.ulaw2lin] and [audioop.ratecv].  A media message written by
    [json.dumps] is read back by [json.loads]; base64 text decodes to the
    bytes it encodes; when the encoder returns, the rates were positive
    and there is one code word for each sample of the converted audio;
    the decoder, at one positive rate on both sides, gives one 16-bit
    sample per code word. *)
Class Lawful (L : Lib) : Prop := {
  json_round_trip : forall stream_sid payload,
    json_loads (json_dumps (media_message stream_sid payload))
    = Ok (media_message stream_sid payload);
  base64_round_trip : forall ulaw payload,
    decode_utf8 (b64encode ulaw) = Ok payload -> b64decode payload = Ok ulaw;
  pcm_to_ulaw_count : forall pcm in_rate out_rate ulaw,
    pcm_to_ulaw pcm in_rate out_rate = Ok ulaw ->
    0 < in_rate /\ 0 < out_rate
    /\ Z.of_nat (List.length ulaw)
       = ratecv_count (Z.of_nat (List.length pcm) / 2) in_rate out_rate;
  ulaw_to_pcm_count : forall ulaw rate,
    0 < rate ->
    exists pcm,
      ulaw_to_pcm ulaw rate rate = Ok pcm
      /\ List.length pcm = (2 * List.length ulaw)%nat
}.

Section Serializer.
Context {L : Lib}.

(** [serialize(self, frame)].  The method returns its result together with
    the serializer object, which it never assigns to. *)
Definition serialize (self : ExotelFrameSerializer) (frame : Frame)
  : result (option string) * ExotelFrameSerializer :=
  match frame with
  | AudioRawFrame a =>
      let data := audio a in
      (serialized_data <-
         pcm_to_ulaw data (Frames.sample_rate a) (sample_rate (_params self)) ;;
       payload <- decode_utf8 (b64encode serialized_data) ;;
       let answer := media_message (_stream_sid self) payload in
       Ok (Some (json_dumps answer)),
       self)
  | StartInterruptionFrame =>
      let answer := clear_message (_stream_sid self) in
      (Ok (Some (json_dumps answer)), self)
  | _ => (Ok None, self)
  end.

(** [base64.b64decode(v)] on a value taken out of the message: a string is
    decoded by the library, any other JSON value is not bytes-like. *)
Definition b64decode_value (v : json) : result bytes :=
  match v with
  | JString s => b64decode s
  | _ => Raise TypeError
  end.

(** [deserialize(self, data)], [data] being the text of the message. *)
Definition deserialize (self : ExotelFrameSerializer) (data : string)
  : result (option Frame) * ExotelFrameSerializer :=
  (message <- json_loads data ;;
   event <- getitem message "event" ;;
   if ne_str event "media" then Ok None
   else
     media <- getitem message "media" ;;
     payload_base64 <- getitem media "payload" ;;
     payload <- b64decode_value payload_base64 ;;
     deserialized_data <-
       ulaw_to_pcm payload (sample_rate (_params self))
                   (sample_rate (_params self)) ;;
     let audio_frame :=
       AudioRawFrame {| audio := deserialized_data;
                        num_channels := 1;
                        Frames.sample_rate := sample_rate (_params self) |} in
     Ok (Some audio_frame),
   self).

(** Serialize a frame and feed the wire message, if there is one, back to
    [deserialize]. *)
Definition round_trip (self : ExotelFrameSerializer) (frame : Frame)
  : result (option Frame) :=
  match fst (serialize self frame) with
  | Ok (Some wire) => fst (deserialize self wire)
  | Ok None => Ok None
  | Raise e => Raise e
  end.

End Serializer.
End Exotel.

(** ** A reference library

    One concrete [Py.Lib], on which the serializer can be run: JSON text as
    [json.dumps] and [json.loads] write and read it with their default
    arguments, standard base64, and G.711 mu-law companding.  Strings hold
    the code points below 256. *)

Module RefLib.
Import Py.

Definition chr (n : N) : ascii := ascii_of_N n.
Definition ord (c : ascii) : N := N_of_ascii c.
Definition str1 (n : N) : string := String (chr n) EmptyString.

(** The double quote and the backslash. *)
Definition dquote : string := str1 34.
Definition bslash : string := str1 92.

(** [quoted s] is [s] with every apostrophe turned into a double quote;
    it writes wire messages legibly. *)
Fixpoint quoted (s : string) : string :=
  match s with
  | EmptyString => EmptyString
  | String c r => String (if (ord c =? 39)%N then chr 34 else c) (quoted r)
  end.

(** *** [json.dumps] *)

Definition hex_digit (n : N) : ascii :=
  if (n <? 10)%N then chr (48 + n) else chr (87 + n).

(** [ensure_ascii] escaping of one character. *)
Definition escape_char (c : ascii) : string :=
  let n := ord c in
  if (n =? 34)%N then bslash ++ dquote
  else if (n =? 92)%N then bslash ++ bslash
  else if (n =? 10)%N then bslash ++ "n"
  else if (n =? 13)%N then bslash ++ "r"
  else if (n =? 9)%N then bslash ++ "t"
  else if (n =? 8)%N then bslash ++ "b"
  else if (n =? 12)%N then bslash ++ "f"
  else if ((32 <=? n) && (n <=? 126))%N then String c EmptyString
  else bslash ++ "u00" ++ String (hex_digit (n / 16)) (String (hex_digit (n mod 16)) EmptyString).

Fixpoint escape (s : string) : string :=
  match s with
  | EmptyString => EmptyString
  | String c r => escape_char c ++ escape r
  end.

Definition dump_string (s : string) : string := dquote ++ escape s ++ dquote.

Fixpoint join (sep : string) (l : list string) : string :=
  match l with
  | [] => EmptyString
  | [x] => x
  | x :: r => x ++ sep ++ join sep r
  end.

Definition dump_int (n : Z) : string :=
  DecimalString.NilZero.string_of_int (Z.to_int n).

(** [json.dumps(v)] with the default separators [", "] and [": "]. *)
Fixpoint dumps (v : json) : string :=
  match v with
  | JNull => "null"
  | JBool true => "true"
  | JBool false => "false"
  | JInt n => dump_int n
  | JFloat lexeme => lexeme
  | JString s => dump_string s
  | JArray items =>
      "[" ++ join ", " (map dumps items) ++ "]"
  | JObject fields =>
      "{" ++ join ", "
               ((fix members (l : list (string * json)) : list string :=
                   match l with
                   | [] => []
                   | (k, x) :: r => (dump_string k ++ ": " ++ dumps x) :: members r
                   end) fields)
          ++ "}"
  end.

(** *** [json.loads] *)

Definition is_ws (c : ascii) : bool :=
  let n := ord c in ((n =? 32) || (n =? 9) || (n =? 10) || (n =? 13))%N.

Fixpoint skip_ws (s : string) : string :=
  match s with
  | String c r => if is_ws c then skip_ws r else s
  | EmptyString => s
  end.

Fixpoint strip_prefix (p s : string) : option string :=
  match p, s with
  | EmptyString, _ => Some s
  | String a p', String b s' =>
      if Ascii.eqb a b then strip_prefix p' s' else None
  | String _ _, EmptyString => None
  end.

Definition hex_value (c : ascii) : option N :=
  let n := ord c in
  if ((48 <=? n) && (n <=? 57))%N then Some (n - 48)%N
  else if ((97 <=? n) && (n <=? 102))%N then Some (n - 87)%N
  else if ((65 <=? n) && (n <=? 70))%N then Some (n - 55)%N
  else None.

Definition hex4 (a b c d : ascii) : option N :=
  match hex_value a, hex_value b, hex_value c, hex_value d with
  | Some x, Some y, Some z, Some w => Some (((x * 16 + y) * 16 + z) * 16 + w)%N
  | _, _, _, _ => None
  end.

(** The character a one-letter escape stands for. *)
Definition unescape (e : ascii) : option ascii :=
  let n := ord e in
  if (n =? 34)%N then Some (chr 34)
  else if (n =? 92)%N then Some (chr 92)
  else if (n =? 47)%N then Some (chr 47)
  else if (n =? 98)%N then Some (chr 8)
  else if (n =? 102)%N then Some (chr 12)
  else if (n =? 110)%N then Some (chr 10)
  else if (n =? 114)%N then Some (chr 13)
  else if (n =? 116)%N then Some (chr 9)
  else None.

(** The body of a string literal, after its opening quote: the decoded
    string and the text after the closing quote.  Raw control characters
    are refused, as [strict=True] does.  A [\u] escape above [00ff] names
    a code point that the strings here cannot hold, and is refused too,
    where [json.loads] reads it. *)
Fixpoint parse_string (s : string) : option (string * string) :=
  match s with
  | EmptyString => None
  | String c rest =>
      if (ord c =? 34)%N then Some (EmptyString, rest)
      else if (ord c =? 92)%N then
        match rest with
        | String e rest1 =>
            if (ord e =? 117)%N then
              match rest1 with
              | String h1 (String h2 (String h3 (String h4 rest2))) =>
                  match hex4 h1 h2 h3 h4 with
                  | Some n =>
                      if (n <? 256)%N then
                        match parse_string rest2 with
                        | Some (t, r) => Some (String (chr n) t, r)
                        | None => None
                        end
                      else None
                  | None => None
                  end
              | _ => None
              end
            else
              match unescape e with
              | Some x =>
                  match parse_string rest1 with
                  | Some (t, r) => Some (String x t, r)
                  | None => None
                  end
              | None => None
              end
        | EmptyString => None
        end
      else if (ord c <? 32)%N then None
      else
        match parse_string rest with
        | Some (t, r) => Some (String c t, r)
        | None => None
        end
  end.

Definition is_digit (c : ascii) : bool :=
  ((48 <=? ord c) && (ord c <=? 57))%N.

(** The longest run of digits at the head of [s], and what follows it. *)
Fixpoint take_digits (s : string) : string * string :=
  match s with
  | String c r =>
      if is_digit c then let (d, r') := take_digits r in (String c d, r')
      else (EmptyString, s)
  | EmptyString => (EmptyString, EmptyString)
  end.

Fixpoint digits_value (acc : Z) (s : string) : Z :=
  match s with
  | String c r => digits_value (10 * acc + Z.of_N (ord c - 48)) r
  | EmptyString => acc
  end.

(** The integer part: a single zero, or a non-zero digit and the digits
    after it. *)
Definition parse_intpart (s : string) : option (string * string) :=
  match s with
  | String c r =>
      if (ord c =? 48)%N then Some ("0", r)
      else if is_digit c then Some (take_digits s)
      else None
  | EmptyString => None
  end.

(** An optional fraction: a dot and at least one digit. *)
Definition parse_frac (s : string) : string * string :=
  match s with
  | String c r =>
      if (ord c =? 46)%N then
        match take_digits r with
        | (EmptyString, _) => (EmptyString, s)
        | (d, r') => (String c d, r')
        end
      else (EmptyString, s)
  | EmptyString => (EmptyString, s)
  end.

(** An optional exponent: [e] or [E], an optional sign and at least one
    digit. *)
Definition parse_exp (s : string) : string * string :=
  match s with
  | String c r =>
      if ((ord c =? 101) || (ord c =? 69))%N then
        let (sign, r1) :=
          match r with
          | String g r0 =>
              if ((ord g =? 43) || (ord g =? 45))%N
              then (String g EmptyString, r0) else (EmptyString, r)
          | EmptyString => (EmptyString, r)
          end in
        match take_digits r1 with
        | (EmptyString, _) => (EmptyString, s)
        | (d, r') => (String c (sign ++ d), r')
        end
      else (EmptyString, s)
  | EmptyString => (EmptyString, s)
  end.

Definition parse_number (s : string) : option (json * string) :=
  let (neg, s1) :=
    match s with
    | String c r => if (ord c =? 45)%N then (true, r) else (false, s)
    | EmptyString => (false, s)
    end in
  match parse_intpart s1 with
  | None => None
  | Some (ip, r1) =>
      let (fp, r2) := parse_frac r1 in
      let (ep, r3) := parse_exp r2 in
      match fp, ep with
      | EmptyString, EmptyString =>
          Some (JInt (if neg then - digits_value 0 ip else digits_value 0 ip), r3)
      | _, _ =>
          Some (JFloat ((if neg then "-" else "") ++ ip ++ fp ++ ep), r3)
      end
  end.

(** [d[k] = v]: a key already present keeps its place. *)
Fixpoint dict_set (k : string) (v : json) (d : list (string * json))
  : list (string * json) :=
  match d with
  | [] => [(k, v)]
  | (k', v') :: r =>
      if String.eqb k k' then (k', v) :: r else (k', v') :: dict_set k v r
  end.

Definition dict_of_pairs (pairs : list (string * json)) : list (string * json) :=
  fold_left (fun d kv => dict_set (fst kv) (snd kv) d) pairs [].

(** The elements of an array after its opening bracket, [s] standing at
    the first of them. *)
Fixpoint parse_elements (value : string -> option (json * string))
    (fuel : nat) (s : string) : option (list json * string) :=
  match fuel with
  | O => None
  | S fuel' =>
      match value s with
      | None => None
      | Some (v, r) =>
          match skip_ws r with
          | String c r' =>
              if (ord c =? 44)%N then
                match parse_elements value fuel' (skip_ws r') with
                | Some (vs, r'') => Some (v :: vs, r'')
                | None => None
                end
              else if (ord c =? 93)%N then Some ([v], r')
              else None
          | EmptyString => None
          end
      end
  end.

(** The members of an object after its opening brace, [s] standing at the
    quote of the first key. *)
Fixpoint parse_members (value : string -> option (json * string))
    (fuel : nat) (s : string) : option (list (string * json) * string) :=
  match fuel with
  | O => None
  | S fuel' =>
      match s with
      | String q r0 =>
          if (ord q =? 34)%N then
            match parse_string r0 with
            | None => None
            | Some (k, r1) =>
                match skip_ws r1 with
                | String c r2 =>
                    if (ord c =? 58)%N then
                      match value (skip_ws r2) with
                      | None => None
                      | Some (v, r3) =>
                          match skip_ws r3 with
                          | String d r4 =>
                              if (ord d =? 44)%N then
                                match parse_members value fuel' (skip_ws r4) with
                                | Some (kvs, r5) => Some ((k, v) :: kvs, r5)
                                | None => None
                                end
                              else if (ord d =? 125)%N then Some ([(k, v)], r4)
                              else None
                          | EmptyString => None
                          end
                      end
                    else None
                | EmptyString => None
                end
            end
          else None
      | EmptyString => None
      end
  end.

(** One JSON value at the head of [s]. *)
Fixpoint parse_value (fuel : nat) (s : string) : option (json * string) :=
  match fuel with
  | O => None
  | S fuel' =>
      match s with
      | EmptyString => None
      | String c r =>
          let n := ord c in
          if (n =? 34)%N then
            match parse_string r with
            | Some (t, r') => Some (JString t, r')
            | None => None
            end
          else if (n =? 123)%N then
            match skip_ws r with
            | String d r' =>
                if (ord d =? 125)%N then Some (JObject [], r')
                else
                  match parse_members (parse_value fuel') fuel' (skip_ws r) with
                  | Some (kvs, r'') => Some (JObject (dict_of_pairs kvs), r'')
                  | None => None
                  end
            | EmptyString => None
            end
          else if (n =? 91)%N then
            match skip_ws r with
            | String d r' =>
                if (ord d =? 93)%N then Some (JArray [], r')
                else
                  match parse_elements (parse_value fuel') fuel' (skip_ws r) with
                  | Some (vs, r'') => Some (JArray vs, r'')
                  | None => None
                  end
            | EmptyString => None
            end
          else
            match strip_prefix "null" s, strip_prefix "true" s,
                  strip_prefix "false" s with
            | Some r', _, _ => Some (JNull, r')
            | _, Some r', _ => Some (JBool true, r')
            | _, _, Some r' => Some (JBool false, r')
            | None, None, None =>
                match parse_number s with
                | Some x => Some x
                | None =>
                    match strip_prefix "NaN" s, strip_prefix "Infinity" s,
                          strip_prefix "-Infinity" s with
                    | Some r', _, _ => Some (JFloat "NaN", r')
                    | _, Some r', _ => Some (JFloat "Infinity", r')
                    | _, _, Some r' => Some (JFloat "-Infinity", r')
                    | None, None, None => None
                    end
                end
            end
      end
  end.

(** [json.loads(s)]: one value between optional white space, nothing
    after it. *)
Definition loads (s : string) : result json :=
  match parse_value (S (String.length s)) (skip_ws s) with
  | Some (v, r) =>
      match skip_ws r with
      | EmptyString => Ok v
      | String _ _ => Raise JSONDecodeError
      end
  | None => Raise JSONDecodeError
  end.

(** *** [base64] *)

Definition byte_of_N (n : N) : byte :=
  match Byte.of_N (n mod 256) with
  | Some b => b
  | None => x00
  end.

(** The base64 alphabet: [A-Z], [a-z], [0-9], [+], [/]. *)
Definition b64_char (n : N) : byte :=
  if (n <? 26)%N then byte_of_N (65 + n)
  else if (n <? 52)%N then byte_of_N (71 + n)
  else if (n <? 62)%N then byte_of_N (n - 4)
  else if (n =? 62)%N then byte_of_N 43
  else byte_of_N 47.

Definition b64_pad : byte := byte_of_N 61.

(** [base64.b64encode]: three bytes become four characters, the last
    group is padded with [=]. *)
Fixpoint encode (l : bytes) : bytes :=
  match l with
  | [] => []
  | [a] =>
      let a := Byte.to_N a in
      [b64_char (a / 4); b64_char ((a mod 4) * 16); b64_pad; b64_pad]
  | [a; b] =>
      let a := Byte.to_N a in
      let b := Byte.to_N b in
      [b64_char (a / 4); b64_char ((a mod 4) * 16 + b / 16);
       b64_char ((b mod 16) * 4); b64_pad]
  | a :: b :: c :: rest =>
      let a := Byte.to_N a in
      let b := Byte.to_N b in
      let c := Byte.to_N c in
      b64_char (a / 4) :: b64_char ((a mod 4) * 16 + b / 16)
        :: b64_char ((b mod 16) * 4 + c / 64) :: b64_char (c mod 64)
        :: encode rest
  end.

(** The value of an alphabet character. *)
Definition b64_value (n : N) : option N :=
  if ((65 <=? n) && (n <=? 90))%N then Some (n - 65)%N
  else if ((97 <=? n) && (n <=? 122))%N then Some (n - 71)%N
  else if ((48 <=? n) && (n <=? 57))%N then Some (n + 4)%N
  else if (n =? 43)%N then Some 62%N
  else if (n =? 47)%N then Some 63%N
  else None.

(** The decoder's loop over the characters, as [binascii.a2b_base64] runs
    it without [strict_mode]: [quad_pos] counts the characters of the
    current group, [leftchar] holds its pending bits and [pads] the pad
    characters seen since the last data character.  A character outside
    the alphabet is skipped; padding that completes a group ends the
    input. *)
Fixpoint a2b_loop (quad_pos leftchar pads : N) (s : list N)
  : result bytes :=
  match s with
  | [] =>
      if (quad_pos =? 0)%N then Ok [] else Raise BinasciiError
  | c :: rest =>
      if (c =? 61)%N then
        if ((2 <=? quad_pos) && (4 <=? quad_pos + (pads + 1)))%N then Ok []
        else a2b_loop quad_pos leftchar
               (if (2 <=? quad_pos)%N then pads + 1 else pads)%N rest
      else
        match b64_value c with
        | None => a2b_loop quad_pos leftchar pads rest
        | Some v =>
            if (quad_pos =? 0)%N then a2b_loop 1 v 0 rest
            else if (quad_pos =? 1)%N then
              out <- a2b_loop 2 (v mod 16) 0 rest ;;
              Ok (byte_of_N (leftchar * 4 + v / 16) :: out)
            else if (quad_pos =? 2)%N then
              out <- a2b_loop 3 (v mod 4) 0 rest ;;
              Ok (byte_of_N (leftchar * 16 + v / 4) :: out)
            else
              out <- a2b_loop 0 0 0 rest ;;
              Ok (byte_of_N (leftchar * 64 + v) :: out)
        end
  end.

Fixpoint codes (s : string) : list N :=
  match s with
  | EmptyString => []
  | String c r => ord c :: codes r
  end.

(** [base64.b64decode(s)] for a [str]: the string must be ASCII. *)
Definition decode (s : string) : result bytes :=
  if forallb (fun n => n <? 128)%N (codes s)
  then a2b_loop 0 0 0 (codes s)
  else Raise ValueError.

(** *** [bytes.decode("utf-8")], for the code points below 256 *)

Fixpoint utf8 (l : bytes) : result string :=
  match l with
  | [] => Ok EmptyString
  | a :: rest =>
      let n := Byte.to_N a in
      if (n <? 128)%N then
        t <- utf8 rest ;; Ok (String (chr n) t)
      else
        match rest with
        | b :: rest' =>
            let m := Byte.to_N b in
            if (((n =? 194) || (n =? 195)) && (128 <=? m) && (m <? 192))%N then
              t <- utf8 rest' ;; Ok (String (chr ((n - 192) * 64 + (m - 128))) t)
            else Raise UnicodeDecodeError
        | [] => Raise UnicodeDecodeError
        end
  end.

(** *** The transcoders

    [pcm_to_ulaw] and [ulaw_to_pcm] belong to [pipecat.audio.utils], which
    is not among the modelled files.  The spec asks for "8 kHz logarithmic
    PCM companding" on the wire and "linear PCM internally at a
    configurable sample rate": here 16-bit little-endian samples, G.711
    mu-law code words, and the change of sample rate of [audioop.ratecv],
    which the two functions call with a width of two bytes, one channel
    and no state. *)

Definition byte_of_Z (z : Z) : byte := byte_of_N (Z.to_N (z mod 256)).
Definition Z_of_byte (b : byte) : Z := Z.of_N (Byte.to_N b).

(** 16-bit little-endian signed samples of a PCM buffer. *)
Fixpoint samples (l : bytes) : list Z :=
  match l with
  | lo :: hi :: rest =>
      let u := Z_of_byte lo + 256 * Z_of_byte hi in
      (if u <? 32768 then u else u - 65536) :: samples rest
  | _ => []
  end.

Fixpoint pcm (l : list Z) : bytes :=
  match l with
  | [] => []
  | x :: rest => byte_of_Z x :: byte_of_Z (Z.shiftr x 8) :: pcm rest
  end.

(** The segment of a biased 14-bit magnitude. *)
Definition segment (v : Z) : Z :=
  if v <=? 63 then 0 else if v <=? 127 then 1 else if v <=? 255 then 2
  else if v <=? 511 then 3 else if v <=? 1023 then 4 else if v <=? 2047 then 5
  else if v <=? 4095 then 6 else if v <=? 8191 then 7 else 8.

(** One 16-bit sample to its mu-law code word. *)
Definition lin2ulaw (sample : Z) : byte :=
  let v := Z.shiftr sample 2 in
  let mask := if v <? 0 then 127 else 255 in
  let mag := if v <? 0 then 33 - v else v + 33 in
  let mag := if 8159 <? mag then 8159 else mag in
  let seg := segment mag in
  if 8 <=? seg then byte_of_Z (Z.lxor 127 mask)
  else byte_of_Z (Z.lxor (Z.lor (Z.shiftl seg 4)
                                (Z.land (Z.shiftr mag (seg + 1)) 15)) mask).

(** One mu-law code word to its 16-bit sample. *)
Definition ulaw2lin (u : byte) : Z :=
  let c := Z.lxor (Z_of_byte u) 255 in
  let t := Z.shiftl (Z.shiftl (Z.land c 15) 3 + 132) (Z.shiftr (Z.land c 112) 4) in
  if Z.land c 128 =? 0 then t - 132 else 132 - t.

(** One sample written by [ratecv]: between the last two samples read,
    [prev] and [cur], held as 32-bit numbers; the quotient is cut as a C
    cast cuts it. *)
Definition interpolate (prev cur d outrate : Z) : Z :=
  Z.shiftr (Z.quot (Z.shiftl prev 16 * d + Z.shiftl cur 16 * (outrate - d))
                   outrate) 16.

(** The loop of [ratecv], entered with [d < 0]: a sample is read while
    [d < 0], which adds [outrate] to [d]; a sample is written while
    [0 <= d], which takes [inrate] from [d]; the loop ends when a sample is
    to be read and none is left.  [cur] is the last sample read. *)
Fixpoint ratecv_loop (l : list Z) (d cur inrate outrate : Z) : list Z :=
  match l with
  | [] => []
  | x :: rest =>
      let d := d + outrate in
      if d <? 0 then ratecv_loop rest d x inrate outrate
      else
        let k := d / inrate + 1 in
        (map (fun i => interpolate cur x (d - Z.of_nat i * inrate) outrate)
             (seq 0 (Z.to_nat k))
         ++ ratecv_loop rest (d - k * inrate) x inrate outrate)%list
  end.

(** [audioop.ratecv(fragment, 2, 1, inrate, outrate, None)[0]] on the
    samples of the fragment, for positive rates: the rates are divided by
    their greatest common divisor, [d] starts at [- outrate], and the
    samples read before the first are zero. *)
Definition ratecv (l : list Z) (inrate outrate : Z) : list Z :=
  let g := Z.gcd inrate outrate in
  ratecv_loop l (- (outrate / g)) 0 (inrate / g) (outrate / g).

(** Modelled from the spec: [pcm_to_ulaw] of [pipecat.audio.utils]:
    "encodes PCM audio to the external protocol's required audio codec and
    sample rate".  The buffer must hold whole samples and the rates must be
    positive. *)
Definition pcm_to_ulaw (pcm_bytes : bytes) (in_rate out_rate : Z)
  : result bytes :=
  if Nat.odd (List.length pcm_bytes) then Raise AudioopError
  else if (in_rate <=? 0) || (out_rate <=? 0) then Raise AudioopError
  else Ok (map lin2ulaw (ratecv (samples pcm_bytes) in_rate out_rate)).

(** Modelled from the spec: [ulaw_to_pcm] of [pipecat.audio.utils]:
    "decodes the audio codec payload back to PCM". *)
Definition ulaw_to_pcm (ulaw_bytes : bytes) (in_rate out_rate : Z)
  : result bytes :=
  if (in_rate <=? 0) || (out_rate <=? 0) then Raise AudioopError
  else Ok (pcm (ratecv (map ulaw2lin ulaw_bytes) in_rate out_rate)).

(** The text of a media message is three fixed pieces around the two
    escaped strings. *)
Definition media_head : string := quoted "{'event': 'media', 'streamSid': '".
Definition media_middle : string := quoted "', 'media': {'payload': '".
Definition media_tail : string := quoted "'}}".

(** ASCII bytes as text. *)
Fixpoint text (l : bytes) : string :=
  match l with
  | [] => EmptyString
  | b :: r => String (chr (Byte.to_N b)) (text r)
  end.

#[export] Instance lib : Lib := {
  json_dumps := dumps;
  json_loads := loads;
  b64encode := encode;
  decode_utf8 := utf8;
  b64decode := decode;
  Py.pcm_to_ulaw := pcm_to_ulaw;
  Py.ulaw_to_pcm := ulaw_to_pcm
}.

End RefLib.

(** ** [UserIdleProcessor]

    The processor owns one background task, [_idle_task], and an
    [asyncio.Event], [_idle_event].  The embedding keeps the fields of the
    object, the state of the task, the loop clock and a history of what
    happened, and gives the three things that can happen to the object:
    a frame is processed, [cleanup] is called, or the event loop runs for
    one unit of time.

    What asyncio does is fixed as follows.
    - Code runs without interruption between two suspension points.  The
      handler suspends in [asyncio.wait_for]; [cleanup] suspends in
      [await self._idle_task] until the task is done.  The base-class
      calls [super().process_frame] and [push_frame] and the user's
      callback are outside the modelled file: they return normally, do
      not suspend and do not touch the fields of the watchdog.  (Module
      [IdleAsync] below lets [push_frame] suspend.)
    - [wait_for(event.wait(), timeout)], for a positive timeout, started
      at time [t] returns when the event is set and raises [TimeoutError]
      once the clock has reached [t + timeout]; an event set earlier
      wins.
    - [task.cancel()] throws [CancelledError] into the task where it is
      suspended, also when the event was set in the meantime (the
      [wait_for] of Python 3.12; the one of 3.10 and 3.11 returns instead
      when the wake-up came first).  A task cancelled before its first
      step never enters its coroutine: it ends cancelled, and awaiting a
      cancelled task raises [CancelledError].  Awaiting a task that
      returned gives its result.
    - Time is counted in ticks of the loop clock. *)

Module Idle.
Import Py Frames.

(** The state of [_idle_task]. *)
Inductive Task :=
| Created                  (* [create_task] done, first step still to run *)
| Waiting (deadline : Z)   (* suspended in [wait_for], which expires at [deadline] *)
| Finished                 (* the coroutine returned *)
| Cancelled.               (* the task ended with [CancelledError] *)

(** What an observer of the processor sees. *)
Inductive Event :=
| Processed (time : Z) (frame : Frame)   (* [process_frame] was entered *)
| Called (time : Z).                     (* the callback was invoked *)

Record UserIdleProcessor := {
  _running : bool;
  _timeout : Z;
  _interrupted : bool;
  _idle_event : bool;     (* whether the [asyncio.Event] is set *)
  _idle_task : Task;
  now : Z;                                  (* [loop.time()] *)
  pushed : list (Frame * FrameDirection);   (* frames given to [push_frame], newest first *)
  history : list Event                      (* newest first *)
}.

Definition set_running (b : bool) (s : UserIdleProcessor) :=
  {| _running := b; _timeout := _timeout s; _interrupted := _interrupted s;
     _idle_event := _idle_event s; _idle_task := _idle_task s; now := now s;
     pushed := pushed s; history := history s |}.

Definition set_interrupted (b : bool) (s : UserIdleProcessor) :=
  {| _running := _running s; _timeout := _timeout s; _interrupted := b;
     _idle_event := _idle_event s; _idle_task := _idle_task s; now := now s;
     pushed := pushed s; history := history s |}.

Definition set_idle_event (b : bool) (s : UserIdleProcessor) :=
  {| _running := _running s; _timeout := _timeout s;
     _interrupted := _interrupted s; _idle_event := b;
     _idle_task := _idle_task s; now := now s; pushed := pushed s;
     history := history s |}.

Definition set_idle_task (t : Task) (s : UserIdleProcessor) :=
  {| _running := _running s; _timeout := _timeout s;
     _interrupted := _interrupted s; _idle_event := _idle_event s;
     _idle_task := t; now := now s; pushed := pushed s;
     history := history s |}.

Definition set_now (t : Z) (s : UserIdleProcessor) :=
  {| _running := _running s; _timeout := _timeout s;
     _interrupted := _interrupted s; _idle_event := _idle_event s;
     _idle_task := _idle_task s; now := t; pushed := pushed s;
     history := history s |}.

Definition record (e : Event) (s : UserIdleProcessor) :=
  {| _running := _running s; _timeout := _timeout s;
     _interrupted := _interrupted s; _idle_event := _idle_event s;
     _idle_task := _idle_task s; now := now s; pushed := pushed s;
     history := e :: history s |}.

(** Modelled from the spec: [push_frame(frame, direction)] of the base
    class [FrameProcessor], which is not among the modelled files: it
    "places a frame onto the appropriate neighbor's input path". *)
Definition push_frame (frame : Frame) (direction : FrameDirection)
    (s : UserIdleProcessor) :=
  {| _running := _running s; _timeout := _timeout s;
     _interrupted := _interrupted s; _idle_event := _idle_event s;
     _idle_task := _idle_task s; now := now s;
     pushed := (frame, direction) :: pushed s; history := history s |}.

(** [await self._callback(self)] *)
Definition _callback (s : UserIdleProcessor) := record (Called (now s)) s.

(** [__init__(callback, timeout)], called at time [time];
    [_create_idle_task] makes a fresh event and the task. *)
Definition __init__ (timeout : Z) (time : Z) : UserIdleProcessor :=
  {| _running := true; _timeout := timeout; _interrupted := false;
     _idle_event := false; _idle_task := Created; now := time;
     pushed := []; history := [] |}.

(** *** [_idle_task_handler] *)

(** The handler from the test of its [while] loop up to the point where
    it suspends or returns.  When the event is already set, [wait_for]
    returns at once, [finally] clears the event, and the next iteration
    waits. *)
Definition loop (s : UserIdleProcessor) : UserIdleProcessor :=
  if _running s then
    let s := if _idle_event s then set_idle_event false s else s in
    set_idle_task (Waiting (now s + _timeout s)) s
  else set_idle_task Finished s.

(** How a suspended [wait_for] ends. *)
Inductive Wake := EventSet | TimeoutError | Cancel.

(** The handler from the end of [wait_for] on: the [except] clause that
    applies, then [finally], then the loop again unless it was left. *)
Definition resume (w : Wake) (s : UserIdleProcessor) : UserIdleProcessor :=
  match w with
  | EventSet => loop (set_idle_event false s)
  | TimeoutError =>
      let s := if negb (_interrupted s) then _callback s else s in
      loop (set_idle_event false s)
  | Cancel => set_idle_task Finished (set_idle_event false s)
  end.

(** One turn of the event loop, as far as the task is concerned. *)
Definition poll (s : UserIdleProcessor) : UserIdleProcessor :=
  match _idle_task s with
  | Created => loop s
  | Waiting deadline =>
      if _idle_event s then resume EventSet s
      else if deadline <=? now s then resume TimeoutError s
      else s
  | Finished | Cancelled => s
  end.

(** The event loop runs while the clock advances by one tick. *)
Definition tick (s : UserIdleProcessor) : UserIdleProcessor :=
  poll (set_now (now s + 1) (poll s)).

(** *** [cleanup] *)

(** [self._idle_task.cancel()] followed by [await self._idle_task]. *)
Definition cleanup (s : UserIdleProcessor) : result unit * UserIdleProcessor :=
  match _idle_task s with
  | Created => (Raise CancelledError, set_idle_task Cancelled s)
  | Waiting _ => (Ok tt, resume Cancel s)
  | Finished => (Ok tt, s)
  | Cancelled => (Raise CancelledError, s)
  end.

(** *** [process_frame] *)

(** [isinstance(frame, (EndFrame, EndTaskFrame))] *)
Definition is_end (frame : Frame) : bool :=
  match frame with
  | EndFrame | EndTaskFrame => true
  | _ => false
  end.

(** [process_frame(frame, direction)].  The call is noted in the history;
    [super().process_frame] is the base class's and leaves the fields of
    the watchdog alone.  An exception raised by [cleanup] leaves the
    method before [push_frame]. *)
Definition process_frame (frame : Frame) (direction : FrameDirection)
    (s : UserIdleProcessor) : result unit * UserIdleProcessor :=
  let s := record (Processed (now s) frame) s in
  let (r, s) :=
    if is_end frame
    then cleanup (set_idle_event true (set_running false s))
    else (Ok tt, s) in
  match r with
  | Raise e => (Raise e, s)
  | Ok _ =>
      let s := push_frame frame direction s in
      let s :=
        if _running s then
          match frame with
          | UserStartedSpeakingFrame =>
              set_idle_event true (set_interrupted true s)
          | UserStoppedSpeakingFrame =>
              set_idle_event true (set_interrupted false s)
          | BotSpeakingFrame => set_idle_event true s
          | _ => s
          end
        else s in
      (Ok tt, s)
  end.

(** *** Runs *)

Inductive Action :=
| Process (frame : Frame) (direction : FrameDirection)
| Cleanup
| Tick.

Definition step (s : UserIdleProcessor) (a : Action) : UserIdleProcessor :=
  match a with
  | Process frame direction => snd (process_frame frame direction s)
  | Cleanup => snd (cleanup s)
  | Tick => tick s
  end.

Definition run (acts : list Action) (s : UserIdleProcessor) : UserIdleProcessor :=
  fold_left step acts s.

(** The activity signals. *)
Definition activity (frame : Frame) : bool :=
  match frame with
  | UserStartedSpeakingFrame | UserStoppedSpeakingFrame | BotSpeakingFrame => true
  | _ => false
  end.

(** The task is done, one way or the other. *)
Definition stopped (t : Task) : bool :=
  match t with
  | Finished | Cancelled => true
  | Created | Waiting _ => false
  end.

(** The times at which the callback was invoked, newest first. *)
Fixpoint calls (h : list Event) : list Z :=
  match h with
  | [] => []
  | Called t :: r => t :: calls r
  | Processed _ _ :: r => calls r
  end.

(** A run of a live session without activity: clock ticks and frames
    that are neither activity signals nor End or EndTask. *)
Definition quiet_action (a : Action) : bool :=
  match a with
  | Tick => true
  | Process frame _ => negb (activity frame) && negb (is_end frame)
  | Cleanup => false
  end.

Definition ticks (acts : list Action) : Z :=
  Z.of_nat (List.length (filter (fun a => match a with Tick => true | _ => false end) acts)).

End Idle.

(** ** What the timing properties are stated with *)

Module IdleSpec.
Import Py Frames Idle.

(** Every activity signal in [h] was processed at least [T] before [t]. *)
Definition quiet_for (T t : Z) (h : list Event) : Prop :=
  forall u f, In (Processed u f) h -> activity f = true -> u + T <= t.

(** Every UserStartedSpeaking in [h] has a UserStoppedSpeaking after it
    ([h] is newest first). *)
Definition speech_ended (h : list Event) : Prop :=
  forall newer u older,
    h = (newer ++ Processed u UserStartedSpeakingFrame :: older)%list ->
    exists v, In (Processed v UserStoppedSpeakingFrame) newer.

(** Every call of the callback in [h] came at least [T] after the start
    [t0], after the end of all speech, and at least [T] after all
    activity. *)
Definition fired_ok (T t0 : Z) (h : list Event) : Prop :=
  forall later t earlier, h = (later ++ Called t :: earlier)%list ->
    t0 + T <= t /\ speech_ended earlier /\ quiet_for T t earlier.

(** What holds of the watchdog after any run from [__init__ T t0]. *)
Record Inv (T t0 : Z) (s : UserIdleProcessor) : Prop := {
  inv_timeout : _timeout s = T;
  inv_now : t0 <= now s;
  inv_past : forall u f, In (Processed u f) (history s) -> u <= now s;
  inv_running : _running s = false -> stopped (_idle_task s) = true;
  inv_deadline : forall d, _idle_task s = Waiting d ->
      t0 + T <= d /\ (_idle_event s = false -> quiet_for T d (history s));
  inv_speech : stopped (_idle_task s) = false -> _interrupted s = false ->
      speech_ended (history s);
  inv_fired : fired_ok T t0 (history s)
}.

(** What holds during a run without activity, after [k] ticks. *)
Record Quiet (T t0 k : Z) (s : UserIdleProcessor) : Prop := {
  q_timeout : _timeout s = T;
  q_running : _running s = true;
  q_interrupted : _interrupted s = false;
  q_event : _idle_event s = false;
  q_now : now s = t0 + k;
  q_created : k = 0 -> _idle_task s = Created;
  q_waiting : 0 < k < T -> _idle_task s = Waiting (t0 + T);
  q_called : T <= k -> In (Called (t0 + T)) (history s)
}.
End IdleSpec.

(** ** Concrete inputs *)

Module Samples.
Import Py Frames.

Definition serializer_S : Exotel.ExotelFrameSerializer := Exotel.__init__ "S" None.

Definition ping_text : string := RefLib.quoted "{'event': 'ping'}".

(** Two silent samples, mono, at the wire rate. *)
Definition mono_8k : AudioRaw :=
  {| audio := [x00; x00; x00; x00]; sample_rate := 8000; num_channels := 1 |}.

(** Four samples, mono, at twice the wire rate. *)
Definition mono_16k : AudioRaw :=
  {| audio := [x00; x00; x10; x00; x20; x00; x30; x00];
     sample_rate := 16000; num_channels := 1 |}.

(** One silent sample on each of two channels. *)
Definition stereo_8k : AudioRaw :=
  {| audio := [x00; x00; x00; x00]; sample_rate := 8000; num_channels := 2 |}.

(** A watchdog with a timeout of three ticks, built at time 0, after the
    first turn of its handler. *)
Definition waiting_3 : Idle.UserIdleProcessor :=
  Idle.run [Idle.Tick] (Idle.__init__ 3 0).

(** Four ticks during which only a text frame arrives. *)
Definition quiet_run : list Idle.Action :=
  [Idle.Tick; Idle.Process (TextFrame "hello") DOWNSTREAM; Idle.Tick;
   Idle.Tick; Idle.Tick].

(** What may follow an End frame. *)
Definition late_run : list Idle.Action :=
  [Idle.Tick; Idle.Process UserStoppedSpeakingFrame DOWNSTREAM; Idle.Tick;
   Idle.Tick; Idle.Tick; Idle.Cleanup; Idle.Tick].

End Samples.

(** ** More vocabulary for the watchdog *)

Module IdleMore.
Import Py Frames Idle.

(** The frames a run hands to [process_frame], oldest first. *)
Fixpoint offered (acts : list Action) : list (Frame * FrameDirection) :=
  match acts with
  | [] => []
  | Process frame direction :: rest => (frame, direction) :: offered rest
  | _ :: rest => offered rest
  end.

(** What the speaking frames of a history say about the user: speaking
    when the newest of them is a UserStartedSpeaking frame. *)
Fixpoint user_speaking (h : list Event) : bool :=
  match h with
  | [] => false
  | Processed _ UserStartedSpeakingFrame :: _ => true
  | Processed _ UserStoppedSpeakingFrame :: _ => false
  | _ :: older => user_speaking older
  end.

(** The times [t0 + T], [t0 + 2 T], ..., [t0 + n T], newest first. *)
Fixpoint periods (T t0 : Z) (n : nat) : list Z :=
  match n with
  | O => []
  | S m => (t0 + T * Z.of_nat n) :: periods T t0 m
  end.

(** A run in which no UserStoppedSpeaking frame is processed. *)
Definition no_speech_end (a : Action) : bool :=
  match a with
  | Process UserStoppedSpeakingFrame _ => false
  | _ => true
  end.

(** What holds of the clock and the deadline after any run, for a
    positive timeout [T]: a pending deadline is ahead of the clock by at
    most [T]. *)
Record Armed (T : Z) (s : UserIdleProcessor) : Prop := {
  armed_timeout : _timeout s = T;
  armed_deadline : forall d, _idle_task s = Waiting d -> now s < d <= now s + T
}.

(** What holds of the calls after any run: none is later than the clock,
    and a pending deadline is at least [T] after each of them. *)
Record Spaced (T : Z) (s : UserIdleProcessor) : Prop := {
  spaced_timeout : _timeout s = T;
  spaced_past : forall t, In (Called t) (history s) -> t <= now s;
  spaced_deadline : forall d t,
      _idle_task s = Waiting d -> In (Called t) (history s) -> t + T <= d;
  spaced_calls : forall later t earlier t',
      history s = (later ++ Called t :: earlier)%list ->
      In (Called t') earlier -> t' + T <= t
}.

(** During a run without activity that started when the clock was short
    of [D], the next call is due at [D]. *)
Definition pending (T D : Z) (s : UserIdleProcessor) : Prop :=
  _running s = true /\ _interrupted s = false /\ _timeout s = T /\ now s < D
  /\ ((_idle_task s = Created /\ D = now s + T)
      \/ (exists d, _idle_task s = Waiting d /\ _idle_event s = true
                    /\ D = now s + T)
      \/ (_idle_task s = Waiting D /\ _idle_event s = false)).

(** During a run without activity from [__init__ T t0], after [k]
    ticks. *)
Record Periodic (T t0 k : Z) (s : UserIdleProcessor) : Prop := {
  p_timeout : _timeout s = T;
  p_running : _running s = true;
  p_interrupted : _interrupted s = false;
  p_event : _idle_event s = false;
  p_now : now s = t0 + k;
  p_created : k = 0 -> _idle_task s = Created;
  p_waiting : 0 < k -> _idle_task s = Waiting (t0 + T * (k / T + 1));
  p_calls : calls (history s) = periods T t0 (Z.to_nat (k / T))
}.

(** A clock tick, or a frame other than End and EndTask: what does not
    call [cleanup]. *)
Definition passing (a : Action) : bool :=
  match a with
  | Process frame _ => negb (is_end frame)
  | Tick => true
  | Cleanup => false
  end.

End IdleMore.

(** ** [process_frame] around its suspension point

    [process_frame] awaits [push_frame] (line 51) between the End check and
    the flag writes (lines 54-63), and "a processor's process call may
    suspend ... while enqueuing to a neighbor whose queue is full".  While
    the method is suspended there the event loop runs, and the handler
    with it.  Here the method is cut at that point: a run is made of calls
    that reach the [await], of returns of [push_frame], of calls of
    [cleanup] and of clock ticks. *)

Module IdleAsync.
Import Py Frames Idle.

(** Lines 43-51: from the call to the point where [push_frame] is awaited.
    The call is noted, the End check is made, and the frame is handed to
    [push_frame]; an exception raised by [cleanup] leaves the method
    before. *)
Definition process_frame_call (frame : Frame) (direction : FrameDirection)
    (s : UserIdleProcessor) : result unit * UserIdleProcessor :=
  let s := record (Processed (now s) frame) s in
  let (r, s) :=
    if is_end frame
    then cleanup (set_idle_event true (set_running false s))
    else (Ok tt, s) in
  match r with
  | Raise e => (Raise e, s)
  | Ok _ => (Ok tt, push_frame frame direction s)
  end.

(** Lines 53-63: from the return of [push_frame] to the end of the
    method. *)
Definition process_frame_return (frame : Frame) (s : UserIdleProcessor)
  : UserIdleProcessor :=
  if _running s then
    match frame with
    | UserStartedSpeakingFrame => set_idle_event true (set_interrupted true s)
    | UserStoppedSpeakingFrame => set_idle_event true (set_interrupted false s)
    | BotSpeakingFrame => set_idle_event true s
    | _ => s
    end
  else s.

Inductive Action :=
| Call (frame : Frame) (direction : FrameDirection)
    (* [process_frame] is called and runs until it awaits [push_frame] *)
| Resume (frame : Frame)
    (* [push_frame] returns and [process_frame] runs to its end *)
| Cleanup
| Tick.

Definition step (s : UserIdleProcessor) (a : Action) : UserIdleProcessor :=
  match a with
  | Call frame direction => snd (process_frame_call frame direction s)
  | Resume frame => process_frame_return frame s
  | Cleanup => snd (cleanup s)
  | Tick => tick s
  end.

Definition run (acts : list Action) (s : UserIdleProcessor) : UserIdleProcessor :=
  fold_left step acts s.

(** The runs in which no [push_frame] suspends: every call of
    [process_frame] is followed by its return before anything else
    happens. *)
Fixpoint prompt (acts : list Idle.Action) : list Action :=
  match acts with
  | [] => []
  | Process frame direction :: rest =>
      Call frame direction :: Resume frame :: prompt rest
  | Idle.Cleanup :: rest => Cleanup :: prompt rest
  | Idle.Tick :: rest => Tick :: prompt rest
  end.

End IdleAsync.

(** ** [batch_dialout_bot.py] and [batch_dialout_demo.py]

    The two example scripts talk to services outside the repository (the
    transport, the REST helper, the operating system).  What such a call
    returns or raises is given from outside; the embedding keeps the
    control flow of the scripts and notes the calls they make.  Log and
    print statements are left out. *)

Module Scripts.
Import Py.

(** [except Exception] catches every exception of [Py.exn] but
    [CancelledError], which derives from [BaseException]. *)
Definition is_Exception (e : exn) : bool :=
  match e with
  | CancelledError => false
  | _ => true
  end.

(** [str(n)] for an [int]. *)
Definition str_int (n : Z) : string := RefLib.dump_int n.

End Scripts.

Module DialoutBot.
Import Py Scripts.

(** [get_phone_number(callId)] *)
Definition get_phone_number (callId : Z) : string :=
  if callId mod 2 =? 0 then "+14155204406" else "+19499870006".

(** The calls [on_call_state_updated] makes. *)
Inductive Effect :=
| StartDialout (settings : json)   (* [transport.start_dialout(settings)] *)
| Sleep (seconds : Z)              (* [asyncio.sleep(seconds)] *)
| DeleteRoom (room_url : string).  (* [rest.delete_room_by_url(room_url)] *)

(** The [settings] dict of one attempt. *)
Definition settings (phone_number : string) : json :=
  JObject [("phoneNumber", JString phone_number);
           ("display_name", JString "Dialout User")].

(** The seconds slept in a list of calls. *)
Fixpoint slept (effects : list Effect) : Z :=
  match effects with
  | [] => 0
  | Sleep seconds :: rest => seconds + slept rest
  | _ :: rest => slept rest
  end.

(** [k] failed attempts in a row, the first followed by a sleep of
    [backoff_time]. *)
Fixpoint retries (s : json) (k : nat) (backoff_time : Z) : list Effect :=
  match k with
  | O => []
  | S k' => StartDialout s :: Sleep backoff_time :: retries s k' (backoff_time * 2)
  end.

Section Handler.
(** [int(callId)] *)
Variable int_ : string -> result Z.
(** What the call number [n] (from 0) of [transport.start_dialout]
    gives. *)
Variable start_dialout : nat -> json -> result string.
Variable delete_room_by_url : string -> result unit.
(** The arguments of [main] the handler closes over. *)
Variables room_url callId : string.

(** The body of the [try]: the result of [start_dialout], or what was
    raised before, and the calls made. *)
Definition attempt (calls : nat) : result string * list Effect :=
  match int_ callId with
  | Raise e => (Raise e, [])
  | Ok n =>
      let phone_number := get_phone_number n in
      (start_dialout calls (settings phone_number),
       [StartDialout (settings phone_number)])
  end.

(** The [for] loop with [remaining] iterations to go, after [calls] calls
    of [start_dialout]: the value of [dialout_id] at its end, and the
    calls made. *)
Fixpoint dial (remaining calls : nat) (backoff_time : Z)
  : result (option string) * list Effect :=
  match remaining with
  | O => (Ok None, [])
  | S remaining' =>
      let (r, made) := attempt calls in
      match r with
      | Ok dialout_id => (Ok (Some dialout_id), made)
      | Raise e =>
          if is_Exception e then
            let (r', later) :=
              dial remaining' (calls + List.length made) (backoff_time * 2) in
            (r', made ++ Sleep backoff_time :: later)%list
          else (Raise e, made)
      end
  end.

(** [on_call_state_updated(transport, state)]: the value of [dialout_id]
    when the handler returns, or what it raises, and the calls made. *)
Definition on_call_state_updated (state : string)
  : result (option string) * list Effect :=
  let (r, made) :=
    if String.eqb state "joined" then dial 3 0 1 else (Ok None, []) in
  match r with
  | Raise e => (Raise e, made)
  | Ok dialout_id =>
      if String.eqb state "left" then
        match delete_room_by_url room_url with
        | Ok _ => (Ok dialout_id, made ++ [DeleteRoom room_url])%list
        | Raise e => (Raise e, made ++ [DeleteRoom room_url])%list
        end
      else (Ok dialout_id, made)
  end.

End Handler.
End DialoutBot.

Module BatchDemo.
Import Py Scripts.

Definition BOT_RUN_TIME : Z := 300.

(** The fields of [DailyRoomProperties] that [run_bot] sets. *)
Record DailyRoomProperties := {
  exp : Z;
  enable_dialout : bool;
  eject_at_room_exp : bool;
  enable_recording : string
}.

(** What [run_bot] reads of a room: [room.url]. *)
Record Room := { url : string }.

(** What [run_bot] reads of the room information:
    [room_info.config.enable_dialout]. *)
Record RoomInfo := { config_enable_dialout : bool }.

(** A cell of a CSV row. *)
Inductive Cell := CInt (n : Z) | CBool (b : bool) | CStr (s : string).

(** The calls [run_bot] makes. *)
Inductive Effect :=
| WriteRow (row : list Cell)   (* [csv_writer.writerow(row)] *)
| Sleep (seconds : Z)          (* [asyncio.sleep(seconds)] *)
| Popen (command : string).    (* [subprocess.Popen([command], shell=True, ...)] *)

(** How a call of [run_bot] ends. *)
Inductive Outcome :=
| Returned
| UnboundLocalError (name : string)   (* a local variable read before it was bound *)
| Propagated (e : exn).

Fixpoint rows (effects : list Effect) : list (list Cell) :=
  match effects with
  | [] => []
  | WriteRow row :: rest => row :: rows rest
  | _ :: rest => rows rest
  end.

Fixpoint commands (effects : list Effect) : list string :=
  match effects with
  | [] => []
  | Popen command :: rest => command :: commands rest
  | _ :: rest => commands rest
  end.

(** The [DailyRoomParams] of [run_bot], built at time [time]. *)
Definition room_params (time : Z) : DailyRoomProperties :=
  {| exp := time + BOT_RUN_TIME; enable_dialout := true;
     eject_at_room_exp := true; enable_recording := "cloud" |}.

Section RunBot.
(** [time.time()], in seconds, and the formatted [datetime.now()]. *)
Variable time : Z.
Variable current_time : string.
(** The three calls of the REST helper and the start of the process. *)
Variable create_room : DailyRoomProperties -> result Room.
Variable get_token : string -> Z -> bool -> result string.
Variable get_room_from_url : string -> result RoomInfo.
Variable popen : string -> result unit.

(** The command line of a bot. *)
Definition bot_proc (room : Room) (token : string) (id run_number : Z) : string :=
  "python3 -m batch_dialout_bot -u " ++ url room ++ " -t " ++ token
    ++ " -i " ++ str_int id ++ " -r " ++ str_int run_number.

(** The first [try] block: the local variables [room] and [token] as far
    as they were bound, how the block ended, and the rows written. *)
Definition create (id : Z)
  : option Room * option string * result unit * list Effect :=
  match create_room (room_params time) with
  | Raise e => (None, None, Raise e, [])
  | Ok room =>
      match get_token (url room) (60 * 60) true with
      | Raise e => (Some room, None, Raise e, [])
      | Ok token =>
          match get_room_from_url (url room) with
          | Raise e => (Some room, Some token, Raise e, [])
          | Ok room_info =>
              (Some room, Some token, Ok tt,
               [WriteRow [CInt id; CBool (config_enable_dialout room_info);
                          CStr current_time]])
          end
      end
  end.

(** [run_bot(id, run_number, csv_writer)] *)
Definition run_bot (id run_number : Z) : Outcome * list Effect :=
  let '(room, token, r, written) := create id in
  let handled :=
    match r with
    | Ok _ => Ok written
    | Raise e =>
        if is_Exception e then
          Ok (written ++ [Sleep 10;
                          WriteRow [CInt id; CStr "Rate Limit Error";
                                    CStr current_time]])%list
        else Raise e
    end in
  match handled with
  | Raise e => (Propagated e, written)
  | Ok made =>
      match room with
      | None => (UnboundLocalError "room", made)
      | Some room =>
          match token with
          | None => (UnboundLocalError "token", made)
          | Some token =>
              let command := bot_proc room token id run_number in
              match popen command with
              | Ok _ => (Returned, made ++ [Popen command])%list
              | Raise e =>
                  if is_Exception e
                  then (Returned, made ++ [Popen command])%list
                  else (Propagated e, made ++ [Popen command])%list
              end
          end
      end
  end.

End RunBot.
End BatchDemo.

(** ** Concrete inputs for the scripts and further runs *)

Module MoreSamples.
Import Py Frames.

(** [int(s)] on plain decimal numerals, an optional minus sign and
    digits.  The other spellings that [int] reads (blanks around the
    numeral, a plus sign, underscores between digits) are refused here. *)
Definition int_of_string (s : string) : result Z :=
  let (negative, body) :=
    match s with
    | String c r => if (RefLib.ord c =? 45)%N then (true, r) else (false, s)
    | EmptyString => (false, s)
    end in
  match RefLib.take_digits body with
  | (EmptyString, _) => Raise ValueError
  | (digits, EmptyString) =>
      Ok (if negative then - RefLib.digits_value 0 digits
          else RefLib.digits_value 0 digits)
  | (_, String _ _) => Raise ValueError
  end.

(** A transport whose first two dial-outs fail. *)
Definition flaky_dialout (n : nat) (settings : json) : result string :=
  if (n <? 2)%nat then Raise ValueError else Ok "dialout-1".

(** A transport on which no dial-out works. *)
Definition dead_dialout (n : nat) (settings : json) : result string :=
  Raise ValueError.

Definition delete_ok (room_url : string) : result unit := Ok tt.

(** REST services that work, and some that do not. *)
Definition room_ok (p : BatchDemo.DailyRoomProperties) : result BatchDemo.Room :=
  Ok {| BatchDemo.url := "https://example.daily.co/room" |}.
Definition room_fails (p : BatchDemo.DailyRoomProperties) : result BatchDemo.Room :=
  Raise ValueError.
Definition token_ok (room_url : string) (expiry_time : Z) (owner : bool)
  : result string := Ok "tok".
Definition token_fails (room_url : string) (expiry_time : Z) (owner : bool)
  : result string := Raise ValueError.
Definition info_ok (room_url : string) : result BatchDemo.RoomInfo :=
  Ok {| BatchDemo.config_enable_dialout := true |}.
Definition info_fails (room_url : string) : result BatchDemo.RoomInfo :=
  Raise ValueError.
Definition popen_ok (command : string) : result unit := Ok tt.

(** Wire texts. *)
Definition list_text : string := "[1, 2]".
Definition media_without_payload : string :=
  RefLib.quoted "{'event': 'media', 'media': {}}".
Definition media_stream_a : string :=
  RefLib.quoted "{'event': 'media', 'streamSid': 'A', 'media': {'payload': '//8='}}".
Definition media_no_stream : string :=
  RefLib.quoted "{'event': 'media', 'media': {'payload': '//8='}}".

(** A watchdog with a timeout of three ticks on which the user has
    started to speak. *)
Definition speaking_3 : Idle.UserIdleProcessor :=
  Idle.run [Idle.Tick; Idle.Process UserStartedSpeakingFrame DOWNSTREAM]
           (Idle.__init__ 3 0).

(** The user speaks and stops, one tick apart. *)
Definition speech_run : list Idle.Action :=
  [Idle.Tick; Idle.Process UserStartedSpeakingFrame DOWNSTREAM; Idle.Tick;
   Idle.Process UserStoppedSpeakingFrame DOWNSTREAM].

(** Seven ticks. *)
Definition seven_ticks : list Idle.Action :=
  [Idle.Tick; Idle.Tick; Idle.Tick; Idle.Tick; Idle.Tick; Idle.Tick; Idle.Tick].

(** Frames other than End, and a tick. *)
Definition mixed_run : list Idle.Action :=
  [Idle.Process (TextFrame "a") DOWNSTREAM; Idle.Tick;
   Idle.Process BotSpeakingFrame UPSTREAM;
   Idle.Process UserStartedSpeakingFrame DOWNSTREAM].

End MoreSamples.

(** * Properties of [ExotelFrameSerializer] *)

Section SerializerFacts.
Import Py Frames Exotel.
Context {L : Lib}.

(** What [serialize] does with an audio frame once the transcoder and the
    text decoding have returned. *)
Lemma serialize_audio_frame (self : ExotelFrameSerializer) (a : AudioRaw)
    (ulaw : bytes) (payload : string) :
  pcm_to_ulaw (audio a) (Frames.sample_rate a) (sample_rate (_params self)) = Ok ulaw ->
  decode_utf8 (b64encode ulaw) = Ok payload ->
  serialize self (AudioRawFrame a)
  = (Ok (Some (json_dumps (media_message (_stream_sid self) payload))), self).
Proof.
  intros Hpcm Htxt. unfold serialize.
  rewrite Hpcm. cbn [bind]. rewrite Htxt. reflexivity.
Qed.

Lemma ne_str_true (v : json) (s : string) :
  v <> JString s -> ne_str v s = true.
Proof.
  intros Hne. destruct v as [ | b | n | x | t | items | fields]; try reflexivity.
  cbn [ne_str]. destruct (String.eqb_spec t s) as [-> | Hts].
  - now contradiction Hne.
  - reflexivity.
Qed.

(** Every frame [deserialize] returns is mono, at the configured rate. *)
Lemma deserialize_frame_shape (self : ExotelFrameSerializer) (data : string)
    (frame : Frame) :
  fst (deserialize self data) = Ok (Some frame) ->
  exists pcm, frame = AudioRawFrame {| audio := pcm; num_channels := 1;
                  Frames.sample_rate := sample_rate (_params self) |}.
Proof.
  unfold deserialize. cbn [fst].
  destruct (json_loads data) as [message | e]; cbn [bind]; [ | discriminate].
  destruct (getitem message "event") as [event | e]; cbn [bind]; [ | discriminate].
  destruct (ne_str event "media"); [discriminate | ].
  destruct (getitem message "media") as [media | e]; cbn [bind]; [ | discriminate].
  destruct (getitem media "payload") as [p | e]; cbn [bind]; [ | discriminate].
  destruct (b64decode_value p) as [u | e]; cbn [bind]; [ | discriminate].
  destruct (ulaw_to_pcm u _ _) as [pcm | e]; cbn [bind]; [ | discriminate].
  intros H. injection H as <-. now exists pcm.
Qed.

(** What [deserialize] does with a media message once the library calls
    have returned. *)
Lemma deserialize_media_message (self : ExotelFrameSerializer)
    (data sid payload : string) (ulaw pcm : bytes) :
  json_loads data = Ok (media_message sid payload) ->
  b64decode payload = Ok ulaw ->
  ulaw_to_pcm ulaw (sample_rate (_params self)) (sample_rate (_params self)) = Ok pcm ->
  deserialize self data
  = (Ok (Some (AudioRawFrame {| audio := pcm; num_channels := 1;
                 Frames.sample_rate := sample_rate (_params self) |})), self).
Proof.
  intros Hload Hb64 Hpcm. unfold deserialize.
  rewrite Hload. cbn. rewrite Hb64. cbn. rewrite Hpcm. reflexivity.
Qed.

(** C1.  A StartInterruption frame serializes to the clear message with the
    stream identifier the serializer was built with: [serialize] returns the
    [json.dumps] text of the object with the two members ["event": "clear"]
    and ["streamSid": <id>], whatever parameters were given. *)
Theorem serialize_start_interruption (stream_sid : string)
    (params : option InputParams) :
  fst (serialize (__init__ stream_sid params) StartInterruptionFrame)
  = Ok (Some (json_dumps (JObject [("event", JString "clear");
                                    ("streamSid", JString stream_sid)]))).
Proof. reflexivity. Qed.

(** C10.  A frame that is neither an audio frame nor a StartInterruption
    frame serializes to [None], and the serializer is as it was. *)
Theorem serialize_other_frame (self : ExotelFrameSerializer) (frame : Frame) :
  (forall a, frame <> AudioRawFrame a) ->
  frame <> StartInterruptionFrame ->
  serialize self frame = (Ok None, self).
Proof.
  intros Haudio Hint. destruct frame; try reflexivity.
  - now contradiction Hint.
  - now contradiction (Haudio a).
Qed.

(** C3.  When the text parses to an object whose ["event"] member is
    anything but the string ["media"], [deserialize] returns [None] and
    raises nothing. *)
Theorem deserialize_other_event (self : ExotelFrameSerializer) (data : string)
    (fields : list (string * json)) (event : json) :
  json_loads data = Ok (JObject fields) ->
  dict_get "event" fields = Some event ->
  event <> JString "media" ->
  deserialize self data = (Ok None, self).
Proof.
  intros Hload Hget Hne. unfold deserialize.
  rewrite Hload. cbn [bind getitem]. rewrite Hget. cbn [bind].
  now rewrite (ne_str_true _ _ Hne).
Qed.

(** C4.  When [json.loads] raises on the text, [deserialize] raises the
    same error: it returns neither [None] nor a frame. *)
Theorem deserialize_malformed (self : ExotelFrameSerializer) (data : string)
    (e : exn) :
  json_loads data = Raise e ->
  fst (deserialize self data) = Raise e.
Proof.
  intros Hload. unfold deserialize. now rewrite Hload.
Qed.

(** C5.  An audio frame serializes to the media message: the [json.dumps]
    text of the object with the members ["event": "media"],
    ["streamSid": <id>] and ["media": {"payload": p}], where [p] is the
    base64 text of the frame's audio transcoded by [pcm_to_ulaw] from the
    frame's rate to the configured rate; the configured rate is 8000 when
    no parameters are given. *)
Theorem serialize_audio (self : ExotelFrameSerializer) (a : AudioRaw)
    (ulaw : bytes) (payload : string) :
  pcm_to_ulaw (audio a) (Frames.sample_rate a) (sample_rate (_params self)) = Ok ulaw ->
  decode_utf8 (b64encode ulaw) = Ok payload ->
  fst (serialize self (AudioRawFrame a))
  = Ok (Some (json_dumps
                (JObject [("event", JString "media");
                          ("streamSid", JString (_stream_sid self));
                          ("media", JObject [("payload", JString payload)])])))
  /\ forall stream_sid, sample_rate (_params (__init__ stream_sid None)) = 8000.
Proof.
  intros Hpcm Htxt. split; [ | reflexivity].
  now rewrite (serialize_audio_frame self a ulaw payload Hpcm Htxt).
Qed.

(** The round trip of an audio frame once every library call has
    returned and the texts read back as written. *)
Lemma round_trip_audio_frame (self : ExotelFrameSerializer) (a : AudioRaw)
    (ulaw pcm : bytes) (payload : string) :
  let rate := sample_rate (_params self) in
  pcm_to_ulaw (audio a) (Frames.sample_rate a) rate = Ok ulaw ->
  decode_utf8 (b64encode ulaw) = Ok payload ->
  json_loads (json_dumps (media_message (_stream_sid self) payload))
    = Ok (media_message (_stream_sid self) payload) ->
  b64decode payload = Ok ulaw ->
  ulaw_to_pcm ulaw rate rate = Ok pcm ->
  round_trip self (AudioRawFrame a)
  = Ok (Some (AudioRawFrame {| audio := pcm; num_channels := 1;
                Frames.sample_rate := rate |})).
Proof.
  intros rate Henc Htxt Hjson Hb64 Hdec. unfold round_trip.
  rewrite (serialize_audio_frame self a ulaw payload Henc Htxt). cbn [fst].
  now rewrite (deserialize_media_message self _ _ _ ulaw pcm Hjson Hb64 Hdec).
Qed.

(** C2, as amended.  On a library that behaves as [json], [base64] and
    [audioop] do (the media message and the base64 text read back as
    written; the encoder, when it returns, had positive rates and gives one
    code word per sample of the audio converted by [ratecv]; the decoder
    gives one 16-bit sample per code word), every mono audio frame that
    [serialize] turns into a wire message comes back from [deserialize] as
    an audio frame with the same channel count, at the configured rate,
    whose duration differs from the original's by less than one sample
    period of the lower of the two rates: its sample count is the
    original's scaled by the ratio of the rates, to within that. *)
Theorem round_trip_mono (LL : Lawful L) (self : ExotelFrameSerializer)
    (a : AudioRaw) (wire : string) :
  num_channels a = 1 ->
  fst (serialize self (AudioRawFrame a)) = Ok (Some wire) ->
  exists a',
    fst (deserialize self wire) = Ok (Some (AudioRawFrame a'))
    /\ round_trip self (AudioRawFrame a) = Ok (Some (AudioRawFrame a'))
    /\ num_channels a' = num_channels a
    /\ Frames.sample_rate a' = sample_rate (_params self)
    /\ Z.abs (sample_count a' * Frames.sample_rate a
              - sample_count a * Frames.sample_rate a')
       < Z.max (Frames.sample_rate a) (Frames.sample_rate a').
Proof.
  intros Hmono Hser.
  assert (Hwire : exists ulaw payload,
             pcm_to_ulaw (audio a) (Frames.sample_rate a) (sample_rate (_params self))
             = Ok ulaw
             /\ decode_utf8 (b64encode ulaw) = Ok payload
             /\ wire = json_dumps (media_message (_stream_sid self) payload)).
  { revert Hser. unfold serialize. cbn [fst].
    destruct (pcm_to_ulaw _ _ _) as [ulaw | e] eqn:E1; cbn [bind]; [ | discriminate].
    destruct (decode_utf8 _) as [payload | e] eqn:E2; cbn [bind]; [ | discriminate].
    intros H. injection H as <-. now exists ulaw, payload. }
  destruct Hwire as (ulaw & payload & Henc & Htxt & ->).
  destruct (pcm_to_ulaw_count _ _ _ _ Henc) as (Hin & Hout & Hlen).
  pose proof (base64_round_trip ulaw payload Htxt) as Hb64.
  destruct (ulaw_to_pcm_count ulaw _ Hout) as (pcm & Hdec & Hpcm).
  eexists. split; [ | split].
  - now rewrite (deserialize_media_message self _ _ _ ulaw pcm
                   (json_round_trip _ _) Hb64 Hdec).
  - exact (round_trip_audio_frame self a ulaw pcm payload Henc Htxt
             (json_round_trip _ _) Hb64 Hdec).
  - cbn [audio Frames.sample_rate num_channels]. repeat split; try easy.
    unfold sample_count. cbn [audio num_channels].
    rewrite Hmono, Hpcm, Nat2Z.inj_mul. change (Z.of_nat 2) with 2.
    change (2 * 1) with 2.
    rewrite (Z.mul_comm 2 (Z.of_nat (List.length ulaw))), Z.div_mul by lia.
    rewrite Hlen. unfold ratecv_count.
    set (n := Z.of_nat (List.length (audio a)) / 2).
    assert (Hn : 0 <= n) by (subst n; apply Z.div_pos; lia).
    set (fr := Frames.sample_rate a) in *. set (r := sample_rate (_params self)) in *.
    destruct (n <=? 0) eqn:E.
    + apply Z.leb_le in E. assert (n = 0) by lia. lia.
    + apply Z.leb_gt in E.
      pose proof (Z.div_mod ((n - 1) * r) fr ltac:(lia)) as Hdm.
      pose proof (Z.mod_pos_bound ((n - 1) * r) fr Hin) as Hm.
      nia.
Qed.

End SerializerFacts.

(** * The reference library keeps the contract *)

Section Base64Facts.
Import Py RefLib.

Ltac div_lia := Z.to_euclidean_division_equations; lia.

(** Lists by groups of three. *)
Lemma list_ind3 (A : Type) (P : list A -> Prop) :
  P [] -> (forall a, P [a]) -> (forall a b, P [a; b]) ->
  (forall a b c rest, P rest -> P (a :: b :: c :: rest)) ->
  forall l, P l.
Proof.
  intros H0 H1 H2 H3.
  fix IH 1. intros [ | a [ | b [ | c rest]]].
  - exact H0.
  - exact (H1 a).
  - exact (H2 a b).
  - exact (H3 a b c rest (IH rest)).
Qed.

Lemma byte_of_to_N (b : byte) : byte_of_N (Byte.to_N b) = b.
Proof.
  unfold byte_of_N. pose proof (Byte.to_N_bounded b) as Hb.
  rewrite N.mod_small by lia. now rewrite Byte.of_to_N.
Qed.

Lemma to_N_byte_of_N (n : N) : (n < 256)%N -> Byte.to_N (byte_of_N n) = n.
Proof.
  intros Hn. unfold byte_of_N. rewrite N.mod_small by assumption.
  destruct (Byte.of_N n) as [b | ] eqn:E.
  - now apply Byte.to_of_N.
  - pose proof (Byte.to_of_N_option_map n) as H. rewrite E in H. cbn in H.
    destruct (N.leb_spec n 255); [discriminate H | lia].
Qed.

(** The sixty-four values, by enumeration. *)
Lemma below_64 (P : N -> bool) :
  forallb P (map N.of_nat (seq 0 64)) = true ->
  forall v, (v < 64)%N -> P v = true.
Proof.
  intros H v Hv. rewrite forallb_forall in H. apply H.
  apply in_map_iff. exists (N.to_nat v). split; [apply N2Nat.id | ].
  apply in_seq. lia.
Qed.

Lemma b64_char_value (v : N) :
  (v < 64)%N ->
  let k := Byte.to_N (b64_char v) in
  (k =? 61)%N = false /\ b64_value k = Some v /\ (k < 128)%N.
Proof.
  intros Hv k.
  assert (H : ((negb (k =? 61)%N)
               && match b64_value k with Some w => (w =? v)%N | None => false end
               && (k <? 128)%N) = true).
  { subst k. revert v Hv. apply below_64. vm_compute. reflexivity. }
  apply andb_prop in H as [H H3]. apply andb_prop in H as [H1 H2].
  repeat split.
  - now apply negb_true_iff.
  - destruct (b64_value k) as [w | ]; [ | discriminate H2].
    apply N.eqb_eq in H2. now subst.
  - now apply N.ltb_lt.
Qed.

Lemma pad_value : Byte.to_N b64_pad = 61%N.
Proof. reflexivity. Qed.

(** One data character in each position of a group. *)
Lemma a2b_step0 (v : N) (rest : list N) :
  (v < 64)%N ->
  a2b_loop 0 0 0 (Byte.to_N (b64_char v) :: rest) = a2b_loop 1 v 0 rest.
Proof.
  intros Hv. destruct (b64_char_value v Hv) as (H1 & H2 & _).
  cbn [a2b_loop]. now rewrite H1, H2.
Qed.

Lemma a2b_step1 (left v pads : N) (rest : list N) :
  (v < 64)%N ->
  a2b_loop 1 left pads (Byte.to_N (b64_char v) :: rest)
  = (out <- a2b_loop 2 (v mod 16) 0 rest ;;
     Ok (byte_of_N (left * 4 + v / 16) :: out)).
Proof.
  intros Hv. destruct (b64_char_value v Hv) as (H1 & H2 & _).
  cbn [a2b_loop]. now rewrite H1, H2.
Qed.

Lemma a2b_step2 (left v pads : N) (rest : list N) :
  (v < 64)%N ->
  a2b_loop 2 left pads (Byte.to_N (b64_char v) :: rest)
  = (out <- a2b_loop 3 (v mod 4) 0 rest ;;
     Ok (byte_of_N (left * 16 + v / 4) :: out)).
Proof.
  intros Hv. destruct (b64_char_value v Hv) as (H1 & H2 & _).
  cbn [a2b_loop]. now rewrite H1, H2.
Qed.

Lemma a2b_step3 (left v pads : N) (rest : list N) :
  (v < 64)%N ->
  a2b_loop 3 left pads (Byte.to_N (b64_char v) :: rest)
  = (out <- a2b_loop 0 0 0 rest ;;
     Ok (byte_of_N (left * 64 + v) :: out)).
Proof.
  intros Hv. destruct (b64_char_value v Hv) as (H1 & H2 & _).
  cbn [a2b_loop]. now rewrite H1, H2.
Qed.

(** The decoder's loop undoes the encoder. *)
Lemma a2b_encode (l : bytes) :
  a2b_loop 0 0 0 (map Byte.to_N (encode l)) = Ok l.
Proof.
  induction l as [ | a | a b | a b c rest IH] using list_ind3.
  - reflexivity.
  - pose proof (Byte.to_N_bounded a) as Ha.
    cbn [encode map]. set (A := Byte.to_N a) in *.
    rewrite a2b_step0 by (zify; div_lia).
    rewrite a2b_step1 by (zify; div_lia).
    rewrite pad_value. cbn.
    replace (A / 4 * 4 + A mod 4 * 16 / 16)%N with A by (zify; div_lia).
    subst A. now rewrite byte_of_to_N.
  - pose proof (Byte.to_N_bounded a) as Ha.
    pose proof (Byte.to_N_bounded b) as Hb.
    cbn [encode map]. set (A := Byte.to_N a) in *. set (B := Byte.to_N b) in *.
    rewrite a2b_step0 by (zify; div_lia).
    rewrite a2b_step1 by (zify; div_lia).
    rewrite a2b_step2 by (zify; div_lia).
    rewrite pad_value. cbn.
    replace (A / 4 * 4 + (A mod 4 * 16 + B / 16) / 16)%N with A by (zify; div_lia).
    replace ((A mod 4 * 16 + B / 16) mod 16 * 16 + B mod 16 * 4 / 4)%N with B
      by (zify; div_lia).
    subst A B. now rewrite !byte_of_to_N.
  - pose proof (Byte.to_N_bounded a) as Ha.
    pose proof (Byte.to_N_bounded b) as Hb.
    pose proof (Byte.to_N_bounded c) as Hc.
    cbn [encode map]. set (A := Byte.to_N a) in *. set (B := Byte.to_N b) in *.
    set (C := Byte.to_N c) in *.
    rewrite a2b_step0 by (zify; div_lia).
    rewrite a2b_step1 by (zify; div_lia).
    rewrite a2b_step2 by (zify; div_lia).
    rewrite a2b_step3 by (zify; div_lia).
    rewrite IH. cbn [bind].
    replace (A / 4 * 4 + (A mod 4 * 16 + B / 16) / 16)%N with A by (zify; div_lia).
    replace ((A mod 4 * 16 + B / 16) mod 16 * 16 + (B mod 16 * 4 + C / 64) / 4)%N
      with B by (zify; div_lia).
    replace ((B mod 16 * 4 + C / 64) mod 4 * 64 + C mod 64)%N with C
      by (zify; div_lia).
    subst A B C. now rewrite !byte_of_to_N.
Qed.


Lemma encode_ascii (l : bytes) :
  Forall (fun b => (Byte.to_N b < 128)%N) (encode l).
Proof.
  induction l as [ | a | a b | a b c rest IH] using list_ind3; cbn [encode].
  - constructor.
  - pose proof (Byte.to_N_bounded a).
    repeat constructor; try (apply b64_char_value; zify; div_lia).
  - pose proof (Byte.to_N_bounded a). pose proof (Byte.to_N_bounded b).
    repeat constructor; try (apply b64_char_value; zify; div_lia).
  - pose proof (Byte.to_N_bounded a). pose proof (Byte.to_N_bounded b).
    pose proof (Byte.to_N_bounded c).
    repeat (constructor; [apply b64_char_value; zify; div_lia | ]).
    exact IH.
Qed.

Lemma utf8_ascii (l : bytes) :
  Forall (fun b => (Byte.to_N b < 128)%N) l -> utf8 l = Ok (text l).
Proof.
  induction 1 as [ | b l Hb _ IH]; [reflexivity | ].
  cbn [utf8 text]. apply N.ltb_lt in Hb. now rewrite Hb, IH.
Qed.

Lemma codes_text (l : bytes) : codes (text l) = map Byte.to_N l.
Proof.
  induction l as [ | b l IH]; [reflexivity | ].
  cbn [text codes map]. rewrite IH. f_equal.
  unfold ord, chr. apply N_ascii_embedding.
  pose proof (Byte.to_N_bounded b). lia.
Qed.

(** Base64 text decodes to the bytes it encodes. *)
Lemma decode_encode (l : bytes) :
  utf8 (encode l) = Ok (text (encode l)) /\ decode (text (encode l)) = Ok l.
Proof.
  split; [apply utf8_ascii, encode_ascii | ].
  unfold decode. rewrite codes_text.
  assert (H : forallb (fun n => (n <? 128)%N) (map Byte.to_N (encode l)) = true).
  { apply forallb_forall. intros n Hn. apply in_map_iff in Hn as (b & <- & Hb).
    apply N.ltb_lt.
    pose proof (encode_ascii l) as Hall. rewrite Forall_forall in Hall.
    now apply Hall. }
  rewrite H. apply a2b_encode.
Qed.

End Base64Facts.

Section CodecFacts.
Import Py RefLib.

Lemma samples_length (l : bytes) :
  Z.of_nat (List.length (samples l)) = Z.of_nat (List.length l) / 2.
Proof.
  assert (H : forall l, List.length (samples l) = Nat.div2 (List.length l)).
  { fix IH 1. intros [ | lo [ | hi rest]]; cbn; try reflexivity.
    now rewrite IH. }
  rewrite H, Nat.div2_div, Nat2Z.inj_div. reflexivity.
Qed.

Lemma pcm_length (l : list Z) : List.length (pcm l) = (2 * List.length l)%nat.
Proof. induction l as [ | x l IH]; cbn [pcm List.length]; lia. Qed.

(** The loop writes a sample for each multiple of [inrate] that [d]
    passes on its way up. *)
Lemma ratecv_loop_length (l : list Z) (inrate outrate : Z) :
  0 < inrate -> 0 < outrate ->
  forall d cur, d < 0 ->
    Z.of_nat (List.length (ratecv_loop l d cur inrate outrate))
    = Z.max 0 ((d + Z.of_nat (List.length l) * outrate) / inrate + 1).
Proof.
  intros Hi Ho. induction l as [ | x l IH]; intros d cur Hd.
  - cbn [ratecv_loop List.length]. change (Z.of_nat 0) with 0.
    rewrite Z.mul_0_l, Z.add_0_r.
    assert (d / inrate < 0) by (apply Z.div_lt_upper_bound; lia). lia.
  - cbn [ratecv_loop]. cbv zeta.
    replace (d + Z.of_nat (List.length (x :: l)) * outrate)
      with (d + outrate + Z.of_nat (List.length l) * outrate)
      by (cbn [List.length]; lia).
    destruct (d + outrate <? 0) eqn:E.
    + apply Z.ltb_lt in E. now rewrite IH.
    + apply Z.ltb_ge in E.
      set (e := d + outrate) in *.
      set (k := e / inrate + 1).
      assert (Hk : 0 < k) by (subst k; pose proof (Z.div_pos e inrate E Hi); lia).
      pose proof (Z.div_mod e inrate ltac:(lia)) as Hdm.
      pose proof (Z.mod_pos_bound e inrate Hi) as Hm.
      assert (He : e - k * inrate = e mod inrate - inrate) by (subst k; lia).
      rewrite length_app, length_map, length_seq, Nat2Z.inj_add, Z2Nat.id by lia.
      rewrite IH by lia.
      set (m := Z.of_nat (List.length l) * outrate).
      assert (Hm0 : 0 <= m) by (subst m; nia).
      replace (e - k * inrate + m) with (e + m + (- k) * inrate) by lia.
      rewrite Z.div_add by lia.
      assert (k <= (e + m) / inrate + 1).
      { subst k. apply Z.add_le_mono_r. apply Z.div_le_mono; lia. }
      lia.
Qed.

Lemma ratecv_length (l : list Z) (inrate outrate : Z) :
  0 < inrate -> 0 < outrate ->
  Z.of_nat (List.length (ratecv l inrate outrate))
  = Exotel.ratecv_count (Z.of_nat (List.length l)) inrate outrate.
Proof.
  intros Hi Ho. unfold ratecv, Exotel.ratecv_count.
  set (g := Z.gcd inrate outrate).
  assert (Hg : 0 < g).
  { pose proof (Z.gcd_nonneg inrate outrate).
    assert (g <> 0) by (subst g; intros H0; apply Z.gcd_eq_0_l in H0; lia). lia. }
  destruct (Z.gcd_divide_l inrate outrate) as [i' Hi'].
  destruct (Z.gcd_divide_r inrate outrate) as [o' Ho']. fold g in Hi', Ho'.
  assert (Ei : inrate / g = i') by (rewrite Hi'; apply Z.div_mul; lia).
  assert (Eo : outrate / g = o') by (rewrite Ho'; apply Z.div_mul; lia).
  rewrite Ei, Eo.
  assert (0 < i') by nia. assert (0 < o') by nia.
  rewrite ratecv_loop_length by lia.
  set (n := Z.of_nat (List.length l)).
  assert (Hn : 0 <= n) by (subst n; lia).
  replace (- o' + n * o') with ((n - 1) * o') by lia.
  destruct (n <=? 0) eqn:E.
  - apply Z.leb_le in E. assert (n = 0) by lia. subst n. rewrite H1.
    assert ((0 - 1) * o' / i' < 0) by (apply Z.div_lt_upper_bound; lia). lia.
  - apply Z.leb_gt in E.
    rewrite Hi', Ho'. rewrite Z.mul_assoc, Z.div_mul_cancel_r by lia.
    assert (0 <= (n - 1) * o' / i') by (apply Z.div_pos; nia). lia.
Qed.

Lemma pcm_to_ulaw_length (pcm_bytes : bytes) (in_rate out_rate : Z)
    (ulaw : bytes) :
  pcm_to_ulaw pcm_bytes in_rate out_rate = Ok ulaw ->
  0 < in_rate /\ 0 < out_rate
  /\ Z.of_nat (List.length ulaw)
     = Exotel.ratecv_count (Z.of_nat (List.length pcm_bytes) / 2) in_rate out_rate.
Proof.
  unfold pcm_to_ulaw.
  destruct (Nat.odd _); [discriminate | ].
  destruct (in_rate <=? 0) eqn:E1; [discriminate | ].
  destruct (out_rate <=? 0) eqn:E2; [discriminate | ].
  cbn [orb]. intros H. injection H as <-.
  apply Z.leb_gt in E1, E2. repeat split; try assumption.
  now rewrite length_map, ratecv_length, samples_length.
Qed.

Lemma ulaw_to_pcm_length (ulaw_bytes : bytes) (rate : Z) :
  0 < rate ->
  exists pcm_bytes,
    ulaw_to_pcm ulaw_bytes rate rate = Ok pcm_bytes
    /\ List.length pcm_bytes = (2 * List.length ulaw_bytes)%nat.
Proof.
  intros Hr. unfold ulaw_to_pcm.
  destruct (rate <=? 0) eqn:E; [apply Z.leb_le in E; lia | ].
  cbn [orb]. eexists. split; [reflexivity | ].
  rewrite pcm_length. f_equal. apply Nat2Z.inj.
  rewrite ratecv_length, length_map by assumption.
  unfold Exotel.ratecv_count.
  destruct (Z.of_nat (List.length ulaw_bytes) <=? 0) eqn:E0.
  - apply Z.leb_le in E0. lia.
  - rewrite Z.div_mul by lia. lia.
Qed.

End CodecFacts.

Section JsonFacts.
Import Py RefLib.

Lemma append_assoc (a b c : string) : ((a ++ b) ++ c = a ++ (b ++ c))%string.
Proof. induction a as [ | x a IH]; cbn; [reflexivity | now rewrite IH]. Qed.

(** Reading an escaped character gives the character back. *)
Lemma parse_string_escape_char (c : ascii) (rest : string) :
  parse_string (escape_char c ++ rest)
  = match parse_string rest with
    | Some (t, r) => Some (String c t, r)
    | None => None
    end.
Proof.
  destruct c as [[|] [|] [|] [|] [|] [|] [|] [|]]; reflexivity.
Qed.

Lemma parse_string_escape (s rest : string) (q : ascii) :
  ord q = 34%N ->
  parse_string (escape s ++ String q rest) = Some (s, rest).
Proof.
  intros Hq. induction s as [ | c s IH].
  - cbn. now rewrite Hq.
  - cbn [escape]. rewrite append_assoc, parse_string_escape_char.
    now rewrite IH.
Qed.

Lemma length_append (a b : string) :
  String.length (a ++ b) = (String.length a + String.length b)%nat.
Proof. induction a as [ | x a IH]; cbn; [reflexivity | now rewrite IH]. Qed.

Lemma dumps_media (stream_sid payload : string) :
  dumps (Exotel.media_message stream_sid payload)
  = (media_head ++ escape stream_sid ++ media_middle ++ escape payload
       ++ media_tail)%string.
Proof.
  unfold Exotel.media_message. cbn [dumps join map].
  unfold dump_string, dquote, str1.
  repeat rewrite append_assoc. reflexivity.
Qed.

Lemma parse_media (fuel : nat) (stream_sid payload : string) :
  (4 <= fuel)%nat ->
  parse_value fuel
    (media_head ++ escape stream_sid ++ media_middle ++ escape payload
       ++ media_tail)
  = Some (Exotel.media_message stream_sid payload, EmptyString).
Proof.
  intros Hfuel.
  destruct fuel as [ | [ | [ | [ | fuel]]]]; try lia. clear Hfuel.
  cbn.
  rewrite parse_string_escape by reflexivity.
  cbn.
  rewrite parse_string_escape by reflexivity.
  reflexivity.
Qed.

Lemma loads_dumps_media (stream_sid payload : string) :
  loads (dumps (Exotel.media_message stream_sid payload))
  = Ok (Exotel.media_message stream_sid payload).
Proof.
  rewrite dumps_media. unfold loads.
  assert (Hws : forall x, skip_ws (media_head ++ x) = (media_head ++ x)%string)
    by reflexivity.
  rewrite Hws, parse_media; [reflexivity | ].
  rewrite length_append. cbn. lia.
Qed.

End JsonFacts.

(** The reference library keeps the contract of the round trip. *)
Lemma reflib_lawful : Exotel.Lawful RefLib.lib.
Proof.
  constructor.
  - apply loads_dumps_media.
  - intros ulaw payload Htxt. destruct (decode_encode ulaw) as [H1 H2].
    cbn in Htxt. rewrite H1 in Htxt. injection Htxt as <-. exact H2.
  - apply pcm_to_ulaw_length.
  - apply ulaw_to_pcm_length.
Qed.

(** ** The serializer on the reference library *)

Section SerializerRuns.
Import Py Frames Exotel Samples.
#[local] Existing Instance RefLib.lib.

Example clear_text :
  fst (serialize serializer_S StartInterruptionFrame)
  = Ok (Some (RefLib.quoted "{'event': 'clear', 'streamSid': 'S'}")).
Proof. reflexivity. Qed.

Example media_text :
  fst (serialize serializer_S (AudioRawFrame mono_8k))
  = Ok (Some (RefLib.quoted
                "{'event': 'media', 'streamSid': 'S', 'media': {'payload': '//8='}}")).
Proof. reflexivity. Qed.

Lemma serialize_other_frame_witness :
  serialize serializer_S (TextFrame "hello") = (Ok None, serializer_S).
Proof.
  apply (serialize_other_frame serializer_S (TextFrame "hello")).
  - intros a. discriminate.
  - discriminate.
Defined.

Lemma deserialize_other_event_witness :
  deserialize serializer_S ping_text = (Ok None, serializer_S).
Proof.
  apply (deserialize_other_event serializer_S ping_text
           [("event", JString "ping")] (JString "ping")).
  - reflexivity.
  - reflexivity.
  - discriminate.
Defined.

Lemma deserialize_malformed_witness :
  fst (deserialize serializer_S "{not json") = Raise JSONDecodeError.
Proof.
  apply (deserialize_malformed serializer_S "{not json" JSONDecodeError).
  reflexivity.
Defined.

Lemma serialize_audio_witness :
  fst (serialize serializer_S (AudioRawFrame mono_8k))
  = Ok (Some (json_dumps
                (JObject [("event", JString "media");
                          ("streamSid", JString "S");
                          ("media", JObject [("payload", JString "//8=")])])))
  /\ forall stream_sid, sample_rate (_params (__init__ stream_sid None)) = 8000.
Proof.
  apply (serialize_audio serializer_S mono_8k [xff; xff] "//8="); reflexivity.
Defined.

Lemma round_trip_mono_witness :
  exists a',
    fst (deserialize serializer_S
           (RefLib.quoted
              "{'event': 'media', 'streamSid': 'S', 'media': {'payload': '//s='}}"))
    = Ok (Some (AudioRawFrame a'))
    /\ round_trip serializer_S (AudioRawFrame mono_16k) = Ok (Some (AudioRawFrame a'))
    /\ num_channels a' = num_channels mono_16k
    /\ Frames.sample_rate a' = 8000
    /\ Z.abs (sample_count a' * Frames.sample_rate mono_16k
              - sample_count mono_16k * Frames.sample_rate a')
       < Z.max (Frames.sample_rate mono_16k) (Frames.sample_rate a').
Proof.
  exact (round_trip_mono reflib_lawful serializer_S mono_16k _ eq_refl eq_refl).
Defined.

Example round_trip_mono_16k :
  round_trip serializer_S (AudioRawFrame mono_16k)
  = Ok (Some (AudioRawFrame {| audio := [x00; x00; x20; x00];
                Frames.sample_rate := 8000; num_channels := 1 |})).
Proof. reflexivity. Qed.

(** C2 fails on a stereo frame: the frame that comes back has one
    channel. *)
Lemma round_trip_stereo_counterexample :
  exists a',
    round_trip serializer_S (AudioRawFrame stereo_8k) = Ok (Some (AudioRawFrame a'))
    /\ num_channels a' <> num_channels stereo_8k
    /\ sample_count a' <> sample_count stereo_8k.
Proof.
  eexists. split; [reflexivity | ]. split; vm_compute; discriminate.
Defined.

End SerializerRuns.

(** * Properties of [UserIdleProcessor] *)

Section IdleFacts.
Import Py Frames Idle.

(** ** Single steps *)

Lemma cleanup_stops (s : UserIdleProcessor) :
  stopped (_idle_task (snd (cleanup s))) = true.
Proof.
  unfold cleanup. destruct (_idle_task s) eqn:E; cbn; now rewrite ?E.
Qed.

Lemma cleanup_keeps (s : UserIdleProcessor) :
  let s' := snd (cleanup s) in
  _running s' = _running s /\ _interrupted s' = _interrupted s
  /\ _timeout s' = _timeout s /\ now s' = now s
  /\ history s' = history s /\ pushed s' = pushed s.
Proof. unfold cleanup. destruct (_idle_task s); cbn; now repeat split. Qed.

Lemma cleanup_stopped_id (s : UserIdleProcessor) :
  stopped (_idle_task s) = true -> snd (cleanup s) = s.
Proof. unfold cleanup. destruct (_idle_task s); cbn; easy. Qed.

Lemma poll_stopped_id (s : UserIdleProcessor) :
  stopped (_idle_task s) = true -> poll s = s.
Proof. unfold poll. destruct (_idle_task s); cbn; easy. Qed.

Lemma poll_now (s : UserIdleProcessor) : now (poll s) = now s.
Proof.
  unfold poll, resume, loop.
  destruct (_idle_task s); try reflexivity;
    repeat (match goal with |- context [if ?b then _ else _] => destruct b end;
            cbn; try reflexivity).
Qed.

Lemma tick_stopped (s : UserIdleProcessor) :
  stopped (_idle_task s) = true -> tick s = set_now (now s + 1) s.
Proof.
  intros H. unfold tick. rewrite (poll_stopped_id s H).
  now apply poll_stopped_id.
Qed.

(** The state after [process_frame], by cases on the frame. *)
Lemma process_frame_end (frame : Frame) (direction : FrameDirection)
    (s : UserIdleProcessor) :
  is_end frame = true ->
  let s' := snd (process_frame frame direction s) in
  stopped (_idle_task s') = true /\ _running s' = false
  /\ _interrupted s' = _interrupted s
  /\ history s' = Processed (now s) frame :: history s
  /\ now s' = now s /\ _timeout s' = _timeout s.
Proof.
  intros Hend. unfold process_frame. rewrite Hend.
  unfold cleanup. cbn.
  destruct (_idle_task s) eqn:E; cbn; rewrite ?E; repeat split; reflexivity.
Qed.

Lemma process_frame_other (frame : Frame) (direction : FrameDirection)
    (s : UserIdleProcessor) :
  is_end frame = false ->
  process_frame frame direction s
  = (Ok tt,
     let s1 := push_frame frame direction (record (Processed (now s) frame) s) in
     if _running s then
       match frame with
       | UserStartedSpeakingFrame => set_idle_event true (set_interrupted true s1)
       | UserStoppedSpeakingFrame => set_idle_event true (set_interrupted false s1)
       | BotSpeakingFrame => set_idle_event true s1
       | _ => s1
       end
     else s1).
Proof.
  intros Hend. unfold process_frame. rewrite Hend. reflexivity.
Qed.

(** Once the task is done, nothing starts it again and the callback stays
    silent. *)
Lemma step_stopped (s : UserIdleProcessor) (a : Action) :
  stopped (_idle_task s) = true ->
  stopped (_idle_task (step s a)) = true
  /\ calls (history (step s a)) = calls (history s)
  /\ (_running s = false -> _running (step s a) = false).
Proof.
  intros Hs. destruct a as [frame direction | | ]; cbn [step].
  - destruct (is_end frame) eqn:Hend.
    + destruct (process_frame_end frame direction s Hend)
        as (H1 & H2 & _ & H4 & _).
      rewrite H4. now repeat split.
    + rewrite (process_frame_other frame direction s Hend). cbn [snd].
      destruct (_running s) eqn:Hr, frame; cbn; repeat split; try easy.
  - rewrite (cleanup_stopped_id s Hs). now repeat split.
  - rewrite (tick_stopped s Hs). now repeat split.
Qed.

Lemma run_stopped (acts : list Action) (s : UserIdleProcessor) :
  stopped (_idle_task s) = true ->
  _running s = false ->
  stopped (_idle_task (run acts s)) = true
  /\ calls (history (run acts s)) = calls (history s)
  /\ _running (run acts s) = false.
Proof.
  revert s. induction acts as [ | a acts IH]; intros s Hs Hr; [easy | ].
  cbn [run fold_left].
  destruct (step_stopped s a Hs) as (H1 & H2 & H3).
  destruct (IH (step s a) H1 (H3 Hr)) as (K1 & K2 & K3).
  unfold run in *. repeat split; try assumption. now rewrite K2.
Qed.

(** C7.  While the watchdog is running, processing a UserStartedSpeaking
    frame sets the interrupted flag, a UserStoppedSpeaking frame clears
    it, and a BotSpeaking frame leaves it alone; all three set the idle
    event, so that the handler, when it is waiting, starts a new wait of
    the full timeout on its next turn without calling the callback.  No
    other frame changes the flag. *)
Theorem process_frame_flags (frame : Frame) (direction : FrameDirection)
    (s : UserIdleProcessor) :
  _running s = true ->
  let s' := snd (process_frame frame direction s) in
  match frame with
  | UserStartedSpeakingFrame => _interrupted s' = true
  | UserStoppedSpeakingFrame => _interrupted s' = false
  | _ => _interrupted s' = _interrupted s
  end
  /\ (activity frame = true ->
      _idle_event s' = true
      /\ forall deadline, _idle_task s = Waiting deadline ->
           _idle_task (poll s') = Waiting (now s + _timeout s)
           /\ _idle_event (poll s') = false
           /\ calls (history (poll s')) = calls (history s)).
Proof.
  intros Hrun. destruct (is_end frame) eqn:Hend.
  - destruct (process_frame_end frame direction s Hend) as (_ & _ & H3 & _).
    destruct frame; try discriminate Hend; cbn zeta; now split.
  - rewrite (process_frame_other frame direction s Hend). cbn [snd].
    rewrite Hrun.
    destruct frame; try discriminate Hend; cbn; split; try easy;
      intros _; (split; [reflexivity | ]); intros deadline Hw;
      unfold poll; cbn; rewrite Hw; cbn; unfold loop; cbn; rewrite Hrun; cbn;
      now repeat split.
Qed.

(** C8.  After an End or EndTask frame has been processed the task is
    done and the watchdog is not running; whatever happens next, the
    callback is not invoked again and the task stays done; a later frame
    other than End or EndTask changes neither the interrupted flag nor the
    idle event nor the task; and whenever [cleanup] hands control back,
    the task is done. *)
Theorem end_frame_stops (frame : Frame) (direction : FrameDirection)
    (s : UserIdleProcessor) (acts : list Action) :
  is_end frame = true ->
  let s1 := snd (process_frame frame direction s) in
  let s2 := run acts s1 in
  calls (history s1) = calls (history s)
  /\ calls (history s2) = calls (history s1)
  /\ stopped (_idle_task s2) = true
  /\ _running s2 = false
  /\ (forall g d, is_end g = false ->
        let s3 := snd (process_frame g d s2) in
        _interrupted s3 = _interrupted s2
        /\ _idle_event s3 = _idle_event s2
        /\ _idle_task s3 = _idle_task s2)
  /\ (forall s0, stopped (_idle_task (snd (cleanup s0))) = true).
Proof.
  intros Hend s1 s2.
  destruct (process_frame_end frame direction s Hend) as (H1 & H2 & _ & H4 & _).
  fold s1 in H1, H2, H4.
  destruct (run_stopped acts s1 H1 H2) as (K1 & K2 & K3). fold s2 in K1, K2, K3.
  repeat split; try assumption.
  - now rewrite H4.
  - rewrite (process_frame_other g d s2 H). cbn [snd]. now rewrite K3.
  - rewrite (process_frame_other g d s2 H). cbn [snd]. now rewrite K3.
  - rewrite (process_frame_other g d s2 H). cbn [snd]. now rewrite K3.
  - apply cleanup_stops.
Qed.

(** Once the handler has had its first turn, [cleanup] returns, and a
    second call returns too and changes nothing. *)
Lemma cleanup_twice_started (s : UserIdleProcessor) :
  _idle_task s <> Created -> _idle_task s <> Cancelled ->
  fst (cleanup s) = Ok tt
  /\ cleanup (snd (cleanup s)) = (Ok tt, snd (cleanup s)).
Proof.
  intros Hc Hx. unfold cleanup.
  destruct (_idle_task s) eqn:E; try easy; cbn; rewrite ?E; now split.
Qed.

(** The second of two calls always leaves the state as the first left
    it. *)
Lemma cleanup_state_idempotent (s : UserIdleProcessor) :
  snd (cleanup (snd (cleanup s))) = snd (cleanup s).
Proof. apply cleanup_stopped_id, cleanup_stops. Qed.

(** C9 at the failing input.  On a processor that has just been built
    the task has not had its first turn: the first [cleanup] raises
    [CancelledError], and so does the second. *)
Theorem cleanup_twice_fresh (timeout time : Z) :
  fst (cleanup (__init__ timeout time)) = Raise CancelledError
  /\ fst (cleanup (snd (cleanup (__init__ timeout time)))) = Raise CancelledError.
Proof. split; reflexivity. Qed.

End IdleFacts.

Section IdleTiming.
Import Py Frames Idle IdleSpec.

Lemma speech_ended_nil : speech_ended [].
Proof. intros [ | e newer] u older Heq; discriminate Heq. Qed.

Lemma speech_ended_cons (e : Event) (h : list Event) :
  (forall u, e <> Processed u UserStartedSpeakingFrame) ->
  speech_ended h -> speech_ended (e :: h).
Proof.
  intros He Hh newer u older Heq.
  destruct newer as [ | e' newer]; cbn in Heq; injection Heq as -> Heq.
  - now contradiction (He u).
  - destruct (Hh newer u older Heq) as [v Hv]. exists v. now right.
Qed.

Lemma speech_ended_stop (v : Z) (h : list Event) :
  speech_ended (Processed v UserStoppedSpeakingFrame :: h).
Proof.
  intros newer u older Heq.
  destruct newer as [ | e' newer]; cbn in Heq; [discriminate Heq | ].
  injection Heq as <- _. exists v. now left.
Qed.

Lemma quiet_for_cons (T d : Z) (e : Event) (h : list Event) :
  (forall u f, e = Processed u f -> activity f = true -> u + T <= d) ->
  quiet_for T d h -> quiet_for T d (e :: h).
Proof.
  intros He Hh u f [-> | Hin] Hact; [now apply (He u f) | now apply (Hh u f)].
Qed.

Lemma quiet_for_mono (T d d' : Z) (h : list Event) :
  d <= d' -> quiet_for T d h -> quiet_for T d' h.
Proof. intros Hle Hh u f Hin Hact. specialize (Hh u f Hin Hact). lia. Qed.

Lemma quiet_for_past (T n : Z) (h : list Event) :
  (forall u f, In (Processed u f) h -> u <= n) -> quiet_for T (n + T) h.
Proof. intros Hp u f Hin _. specialize (Hp u f Hin). lia. Qed.

Lemma fired_ok_nil (T t0 : Z) : fired_ok T t0 [].
Proof. intros [ | e later] t earlier Heq; discriminate Heq. Qed.

Lemma fired_ok_processed (T t0 u : Z) (f : Frame) (h : list Event) :
  fired_ok T t0 h -> fired_ok T t0 (Processed u f :: h).
Proof.
  intros Hh later t earlier Heq.
  destruct later as [ | e later]; cbn in Heq; [discriminate Heq | ].
  injection Heq as _ Heq. now apply (Hh later).
Qed.

Lemma fired_ok_called (T t0 t : Z) (h : list Event) :
  fired_ok T t0 h -> t0 + T <= t -> speech_ended h -> quiet_for T t h ->
  fired_ok T t0 (Called t :: h).
Proof.
  intros Hh Ht Hs Hq later t' earlier Heq.
  destruct later as [ | e later]; cbn in Heq; injection Heq as Heq1 Heq2.
  - now subst.
  - now apply (Hh later).
Qed.

Variables T t0 : Z.

Lemma init_inv : Inv T t0 (__init__ T t0).
Proof.
  constructor; cbn; try easy; try lia.
  - intros _ _. apply speech_ended_nil.
  - apply fired_ok_nil.
Qed.

(** The handler re-entering its loop. *)
Lemma loop_inv (s : UserIdleProcessor) :
  _timeout s = T -> t0 <= now s ->
  (forall u f, In (Processed u f) (history s) -> u <= now s) ->
  (_interrupted s = false -> speech_ended (history s)) ->
  fired_ok T t0 (history s) ->
  Inv T t0 (loop s).
Proof.
  intros Ht Hn Hp Hs Hf. unfold loop.
  destruct (_running s) eqn:Hr.
  - destruct (_idle_event s) eqn:He; constructor; cbn; rewrite ?Hr; try easy;
      intros d [= <-]; rewrite Ht; (split; [lia | ]); intros _;
      now apply quiet_for_past.
  - constructor; cbn; easy.
Qed.

Lemma poll_inv (s : UserIdleProcessor) : Inv T t0 s -> Inv T t0 (poll s).
Proof.
  intros I. pose proof I as [Ht Hn Hp Hr Hd Hs Hf]. unfold poll.
  destruct (_idle_task s) as [ | d | | ] eqn:Etask; try exact I.
  - apply loop_inv; try assumption. intros Hi. now apply Hs.
  - destruct (Hd d eq_refl) as [Hd1 Hd2].
    destruct (_idle_event s) eqn:Eev.
    + cbn [resume]. apply loop_inv; cbn; try assumption.
      intros Hi. now apply Hs.
    + destruct (d <=? now s) eqn:Edue; [ | exact I].
      apply Z.leb_le in Edue. cbn [resume].
      destruct (_interrupted s) eqn:Eint; cbn [negb].
      * apply loop_inv; cbn; try assumption. now rewrite Eint.
      * assert (Hse : speech_ended (history s)) by now apply Hs.
        apply loop_inv; cbn; try assumption.
        -- intros u f [Hin | Hin]; [discriminate Hin | now apply (Hp u f)].
        -- intros _. apply speech_ended_cons; [ | assumption].
           intros u. discriminate.
        -- apply fired_ok_called; try assumption; try lia.
           apply (quiet_for_mono T d); [assumption | now apply Hd2].
Qed.

Lemma set_now_inv (n : Z) (s : UserIdleProcessor) :
  now s <= n -> Inv T t0 s -> Inv T t0 (set_now n s).
Proof.
  intros Hle [Ht Hn Hp Hr Hd Hs Hf]. constructor; cbn; try assumption; try lia.
  intros u f Hin. specialize (Hp u f Hin). lia.
Qed.

Lemma tick_inv (s : UserIdleProcessor) : Inv T t0 s -> Inv T t0 (tick s).
Proof.
  intros I. unfold tick. apply poll_inv, set_now_inv, poll_inv, I.
  rewrite poll_now. lia.
Qed.

Lemma cleanup_inv (s : UserIdleProcessor) :
  Inv T t0 s -> Inv T t0 (snd (cleanup s)).
Proof.
  intros I. pose proof I as [Ht Hn Hp Hr Hd Hs Hf]. unfold cleanup.
  destruct (_idle_task s) eqn:Etask; try exact I; constructor; cbn; easy.
Qed.

Lemma process_frame_inv (frame : Frame) (direction : FrameDirection)
    (s : UserIdleProcessor) :
  Inv T t0 s -> Inv T t0 (snd (process_frame frame direction s)).
Proof.
  intros I. pose proof I as [Ht Hn Hp Hr Hd Hs Hf].
  assert (Hp' : forall u f,
             In (Processed u f) (Processed (now s) frame :: history s) ->
             u <= now s).
  { intros u f [[= <- _] | Hin]; [lia | now apply (Hp u f)]. }
  destruct (is_end frame) eqn:Hend.
  - destruct (process_frame_end frame direction s Hend)
      as (H1 & H2 & H3 & H4 & H5 & H6).
    constructor; rewrite ?H4, ?H5, ?H6; try assumption.
    + intros _. exact H1.
    + intros d Hw. rewrite Hw in H1. discriminate H1.
    + intros Hx. rewrite Hx in H1. discriminate H1.
    + now apply fired_ok_processed.
  - rewrite (process_frame_other frame direction s Hend). cbn [snd].
    destruct (_running s) eqn:Erun.
    + destruct frame; try discriminate Hend; constructor; cbn;
        first
          [ assumption
          | exact Hp'
          | now apply fired_ok_processed
          | intros d Hw; destruct (Hd d Hw) as [Hd1 Hd2];
            split; [exact Hd1 | ]; intros He;
            first
              [ discriminate He
              | apply quiet_for_cons;
                [intros u f [= <- <-]; discriminate | now apply Hd2] ]
          | intros Hst Hi;
            first
              [ discriminate Hi
              | apply speech_ended_stop
              | apply speech_ended_cons;
                [intros u; discriminate | now apply Hs] ]
          | intros Hx; congruence ].
    + pose proof (Hr eq_refl) as Hst.
      constructor; cbn;
        first
          [ assumption
          | exact Hp'
          | now apply fired_ok_processed
          | intros _; exact Hst
          | intros d Hw; rewrite Hw in Hst; discriminate Hst
          | intros Hx; rewrite Hx in Hst; discriminate Hst ].
Qed.

Lemma step_inv (s : UserIdleProcessor) (a : Action) :
  Inv T t0 s -> Inv T t0 (step s a).
Proof.
  intros I. destruct a; cbn [step].
  - now apply process_frame_inv.
  - now apply cleanup_inv.
  - now apply tick_inv.
Qed.

Lemma run_inv (acts : list Action) (s : UserIdleProcessor) :
  Inv T t0 s -> Inv T t0 (run acts s).
Proof.
  revert s. induction acts as [ | a acts IH]; intros s I; [exact I | ].
  cbn [run fold_left]. apply IH. now apply step_inv.
Qed.

End IdleTiming.

Section IdleLiveness.
Import Py Frames Idle IdleSpec.

Lemma poll_keeps (s : UserIdleProcessor) :
  _timeout (poll s) = _timeout s
  /\ _running (poll s) = _running s
  /\ _interrupted (poll s) = _interrupted s
  /\ (_idle_event s = false -> _idle_event (poll s) = false)
  /\ (forall e, In e (history s) -> In e (history (poll s))).
Proof.
  destruct s as [r tm i ev tk n p h]. unfold poll, resume, loop. cbn.
  destruct tk as [ | d | | ]; cbn; try easy.
  - destruct r, ev; cbn; easy.
  - destruct ev; cbn; [destruct r; cbn; easy | ].
    destruct (d <=? n); cbn; [ | easy].
    destruct i, r; cbn; repeat split; try easy; intros e He; now right.
Qed.

Lemma tick_keeps (s : UserIdleProcessor) :
  _timeout (tick s) = _timeout s
  /\ _running (tick s) = _running s
  /\ _interrupted (tick s) = _interrupted s
  /\ (_idle_event s = false -> _idle_event (tick s) = false)
  /\ now (tick s) = now s + 1
  /\ (forall e, In e (history s) -> In e (history (tick s))).
Proof.
  unfold tick.
  destruct (poll_keeps s) as (A1 & A2 & A3 & A4 & A5).
  destruct (poll_keeps (set_now (now s + 1) (poll s))) as (B1 & B2 & B3 & B4 & B5).
  cbn in B1, B2, B3, B4, B5.
  rewrite B1, B2, B3, poll_now. cbn. repeat split; try assumption.
  - intros He. now apply B4, A4.
  - intros e He. now apply B5, A5.
Qed.

Variables T t0 : Z.
Hypothesis T_pos : 0 < T.

Lemma init_quiet : Quiet T t0 0 (__init__ T t0).
Proof. constructor; cbn; try easy; lia. Qed.

Lemma tick_quiet (k : Z) (s : UserIdleProcessor) :
  0 <= k -> Quiet T t0 k s -> Quiet T t0 (k + 1) (tick s).
Proof.
  intros Hk [Ht Hr Hi He Hn Hc Hw Hf].
  destruct (tick_keeps s) as (K1 & K2 & K3 & K4 & K5 & K6).
  constructor; rewrite ?K1, ?K2, ?K3, ?K5; try assumption; try lia.
  - now apply K4.
  - intros Hk1.
    destruct (Z.eq_dec k 0) as [-> | Hk0].
    + specialize (Hc eq_refl).
      destruct s as [r tm i ev tk n p h]. cbn in *. subst r tm i ev tk n.
      unfold tick, poll, loop, resume. cbn.
      destruct (t0 + 0 + T <=? t0 + 0 + 1) eqn:E; [apply Z.leb_le in E; lia | ].
      cbn. f_equal. lia.
    + assert (Hw' : _idle_task s = Waiting (t0 + T)) by (apply Hw; lia).
      destruct s as [r tm i ev tk n p h]. cbn in *. subst r tm i ev tk n.
      unfold tick, poll, loop, resume. cbn.
      destruct (t0 + T <=? t0 + k) eqn:E1; [apply Z.leb_le in E1; lia | ]. cbn.
      destruct (t0 + T <=? t0 + k + 1) eqn:E2; [apply Z.leb_le in E2; lia | ].
      reflexivity.
  - intros Hk1.
    destruct (Z.le_gt_cases T k) as [Hle | Hgt]; [now apply K6, Hf | ].
    assert (Hk' : k + 1 = T) by lia.
    destruct (Z.eq_dec k 0) as [-> | Hk0].
    + specialize (Hc eq_refl).
      destruct s as [r tm i ev tk n p h]. cbn in *. subst r tm i ev tk n.
      unfold tick, poll, loop, resume. cbn.
      destruct (t0 + 0 + T <=? t0 + 0 + 1) eqn:E; [ | apply Z.leb_gt in E; lia].
      cbn. left. f_equal. lia.
    + assert (Hw' : _idle_task s = Waiting (t0 + T)) by (apply Hw; lia).
      destruct s as [r tm i ev tk n p h]. cbn in *. subst r tm i ev tk n.
      unfold tick, poll, loop, resume. cbn.
      destruct (t0 + T <=? t0 + k) eqn:E1; [apply Z.leb_le in E1; lia | ]. cbn.
      destruct (t0 + T <=? t0 + k + 1) eqn:E2; [ | apply Z.leb_gt in E2; lia].
      cbn. left. f_equal. lia.
Qed.

Lemma process_frame_quiet (k : Z) (frame : Frame) (direction : FrameDirection)
    (s : UserIdleProcessor) :
  activity frame = false -> is_end frame = false ->
  Quiet T t0 k s -> Quiet T t0 k (snd (process_frame frame direction s)).
Proof.
  intros Hact Hend [Ht Hr Hi He Hn Hc Hw Hf].
  rewrite (process_frame_other frame direction s Hend). cbn [snd]. rewrite Hr.
  destruct frame; try discriminate Hact; try discriminate Hend;
    constructor; cbn; try assumption; intros Hk; right; now apply Hf.
Qed.

Lemma run_quiet (acts : list Action) (k : Z) (s : UserIdleProcessor) :
  0 <= k -> Quiet T t0 k s -> forallb quiet_action acts = true ->
  Quiet T t0 (k + ticks acts) (run acts s).
Proof.
  revert k s. induction acts as [ | a acts IH]; intros k s Hk Q Hq.
  - cbn. now rewrite Z.add_0_r.
  - cbn [forallb] in Hq. apply andb_prop in Hq as [Ha Hq].
    cbn [run fold_left].
    destruct a as [frame direction | | ]; cbn [quiet_action] in Ha.
    + apply andb_prop in Ha as [Ha1 Ha2].
      apply negb_true_iff in Ha1, Ha2.
      replace (ticks (Process frame direction :: acts)) with (ticks acts)
        by reflexivity.
      apply IH; try assumption. cbn [step]. now apply process_frame_quiet.
    + discriminate Ha.
    + replace (k + ticks (Tick :: acts)) with ((k + 1) + ticks acts)
        by (unfold ticks; cbn [filter List.length]; lia).
      apply IH; try assumption; [lia | ]. cbn [step]. now apply tick_quiet.
Qed.

End IdleLiveness.

Section IdleClaims.
Import Py Frames Idle IdleSpec.

(** The two halves make up [process_frame]. *)
Lemma process_frame_cut (frame : Frame) (direction : FrameDirection)
    (s : UserIdleProcessor) :
  process_frame frame direction s
  = match IdleAsync.process_frame_call frame direction s with
    | (Raise e, s1) => (Raise e, s1)
    | (Ok _, s1) => (Ok tt, IdleAsync.process_frame_return frame s1)
    end.
Proof.
  unfold process_frame, IdleAsync.process_frame_call, IdleAsync.process_frame_return.
  destruct (is_end frame).
  - destruct (cleanup _) as [[u | e] s1]; reflexivity.
  - reflexivity.
Qed.

(** A call followed at once by its return is [process_frame] as a whole,
    also when the call raised: the frame is then End or EndTask, for which
    the second half does nothing. *)
Lemma call_resume (frame : Frame) (direction : FrameDirection)
    (s : UserIdleProcessor) :
  IdleAsync.process_frame_return frame
    (snd (IdleAsync.process_frame_call frame direction s))
  = snd (process_frame frame direction s).
Proof.
  rewrite process_frame_cut. unfold IdleAsync.process_frame_call.
  destruct (is_end frame) eqn:Hend.
  - destruct (cleanup _) as [[u | e] s1]; cbn [snd]; [reflexivity | ].
    unfold IdleAsync.process_frame_return.
    destruct frame; try discriminate Hend; now destruct (_running s1).
  - reflexivity.
Qed.

Lemma run_prompt (acts : list Action) (s : UserIdleProcessor) :
  IdleAsync.run (IdleAsync.prompt acts) s = run acts s.
Proof.
  revert s. induction acts as [ | a acts IH]; intros s; [reflexivity | ].
  destruct a as [frame direction | | ]; cbn [IdleAsync.prompt];
    unfold IdleAsync.run, run in *; cbn [fold_left IdleAsync.step step];
    rewrite ?call_resume; apply IH.
Qed.

(** C6.  The callback can be invoked while the user is speaking.  With a
    timeout of three ticks, a UserStartedSpeaking frame is given to
    [process_frame] at time 2; [push_frame] is still suspended when the
    clock reaches 3, so the interrupted flag has not been written when the
    wait expires, and the callback is invoked at 3, one tick after the
    frame arrived and with no UserStoppedSpeaking frame in between.  The
    flag is set only afterwards, when [push_frame] returns. *)
Theorem idle_callback_race :
  let acts := [IdleAsync.Tick; IdleAsync.Tick;
               IdleAsync.Call UserStartedSpeakingFrame DOWNSTREAM;
               IdleAsync.Tick] in
  history (IdleAsync.run acts (__init__ 3 0))
  = [Called 3; Processed 2 UserStartedSpeakingFrame]
  /\ _interrupted (IdleAsync.run acts (__init__ 3 0)) = false
  /\ _interrupted
       (IdleAsync.run (acts ++ [IdleAsync.Resume UserStartedSpeakingFrame])
          (__init__ 3 0))
     = true.
Proof. repeat split. Qed.

(** X23.  Where no [push_frame] suspends, the timing is as expected.  With
    a positive timeout [T], on a watchdog built at time [t0], in runs in
    which every call of [process_frame] returns before anything else
    happens: the callback is never invoked before [t0 + T]; in every run
    of clock ticks and frames that are neither activity signals nor End
    or EndTask, once [T] ticks have passed the callback has been invoked
    at [t0 + T]; and whenever the callback is invoked at a time [t], each
    UserStartedSpeaking frame processed before has a UserStoppedSpeaking
    frame processed after it, at least [T] before [t], and every activity
    signal processed before the call was processed at least [T] before
    [t].  (The history is newest first.) *)
Theorem idle_callback_timing (T t0 : Z) (acts : list Action) :
  0 < T ->
  let s := IdleAsync.run (IdleAsync.prompt acts) (__init__ T t0) in
  (forall t, In (Called t) (history s) -> t0 + T <= t)
  /\ (forallb quiet_action acts = true -> T <= ticks acts ->
      In (Called (t0 + T)) (history s))
  /\ (forall later t earlier,
        history s = (later ++ Called t :: earlier)%list ->
        (forall newer u older,
            earlier = (newer ++ Processed u UserStartedSpeakingFrame :: older)%list ->
            exists v, In (Processed v UserStoppedSpeakingFrame) newer /\ v + T <= t)
        /\ (forall w f,
              In (Processed w f) earlier -> activity f = true -> w + T <= t)).
Proof.
  intros HT s. unfold s. clear s. rewrite run_prompt. set (s := run acts _).
  pose proof (run_inv T t0 acts _ (init_inv T t0)) as I. fold s in I.
  pose proof (inv_fired _ _ _ I) as Hf.
  split; [ | split].
  - intros t Hin. apply in_split in Hin as (later & earlier & Heq).
    now apply (Hf later t earlier).
  - intros Hq Hticks.
    pose proof (run_quiet T t0 HT acts 0 _ (Z.le_refl 0) (init_quiet T t0 HT) Hq) as Q.
    apply (q_called _ _ _ _ Q). lia.
  - intros later t earlier Heq.
    destruct (Hf later t earlier Heq) as (_ & Hspeech & Hquiet).
    split; [ | exact Hquiet].
    intros newer u older Hearlier.
    destruct (Hspeech newer u older Hearlier) as [v Hv].
    exists v. split; [exact Hv | ].
    apply (Hquiet v UserStoppedSpeakingFrame); [ | reflexivity].
    rewrite Hearlier. apply in_or_app. now left.
Qed.

End IdleClaims.

(** ** The watchdog on concrete runs *)

Section IdleRuns.
Import Py Frames Idle IdleSpec Samples.

Example idle_fires_every_timeout :
  calls (history (run [Tick; Tick; Tick; Tick; Tick; Tick; Tick] (__init__ 3 0)))
  = [6; 3].
Proof. reflexivity. Qed.

Example idle_waits_for_speech_end :
  history (run [Tick; Tick; Process UserStartedSpeakingFrame DOWNSTREAM;
                Tick; Tick; Tick; Tick; Tick;
                Process UserStoppedSpeakingFrame DOWNSTREAM; Tick;
                Process BotSpeakingFrame DOWNSTREAM; Tick; Tick; Tick; Tick]
               (__init__ 3 0))
  = [Called 11; Processed 8 BotSpeakingFrame;
     Processed 7 UserStoppedSpeakingFrame;
     Processed 2 UserStartedSpeakingFrame].
Proof. reflexivity. Qed.

Lemma idle_callback_timing_witness :
  0 < 3
  /\ In (Called (0 + 3))
        (history (IdleAsync.run (IdleAsync.prompt quiet_run) (__init__ 3 0))).
Proof.
  split; [reflexivity | ].
  apply (proj1 (proj2 (idle_callback_timing 3 0 quiet_run eq_refl)));
    [reflexivity | vm_compute; discriminate].
Defined.

Lemma process_frame_flags_witness :
  _running waiting_3 = true
  /\ _interrupted (snd (process_frame UserStartedSpeakingFrame DOWNSTREAM waiting_3))
     = true.
Proof.
  split; [reflexivity | ].
  exact (proj1 (process_frame_flags UserStartedSpeakingFrame DOWNSTREAM
                  waiting_3 eq_refl)).
Defined.

Lemma end_frame_stops_witness :
  is_end EndTaskFrame = true
  /\ calls (history (run late_run
                       (snd (process_frame EndTaskFrame DOWNSTREAM waiting_3))))
     = calls (history (snd (process_frame EndTaskFrame DOWNSTREAM waiting_3))).
Proof.
  split; [reflexivity | ].
  exact (proj1 (proj2 (end_frame_stops EndTaskFrame DOWNSTREAM waiting_3
                         late_run eq_refl))).
Defined.

End IdleRuns.

(** * More on [ExotelFrameSerializer] *)

Section SerializerMore.
Import Py Frames Exotel.
Context {L : Lib}.

Lemma ne_str_false (v : json) (s : string) :
  ne_str v s = false -> v = JString s.
Proof.
  destruct v as [ | b | n | x | t | items | fields]; try discriminate.
  cbn [ne_str]. intros H. apply negb_false_iff in H.
  apply String.eqb_eq in H. now subst.
Qed.

Lemma getitem_ok (v : json) (k : string) (x : json) :
  getitem v k = Ok x ->
  exists fields, v = JObject fields /\ dict_get k fields = Some x.
Proof.
  destruct v as [ | b | n | y | t | items | fields]; try discriminate.
  cbn [getitem]. destruct (dict_get k fields) as [z | ] eqn:E; [ | discriminate].
  intros [= <-]. now exists fields.
Qed.

Lemma b64decode_value_ok (v : json) (u : bytes) :
  b64decode_value v = Ok u -> exists p, v = JString p /\ b64decode p = Ok u.
Proof.
  destruct v as [ | b | n | y | t | items | fields]; try discriminate.
  cbn [b64decode_value]. intros H. now exists t.
Qed.

(** X1.  [deserialize] returns a frame exactly when the text parses to an
    object whose ["event"] member is the string ["media"] and whose
    ["media"] member is an object with a string ["payload"] that base64
    and the mu-law decoder accept; the frame is then an audio frame with
    one channel, at the configured rate, holding the audio decoded with
    the configured rate as both the input and the output rate. *)
Theorem deserialize_frame_iff (self : ExotelFrameSerializer) (data : string)
    (frame : Frame) :
  fst (deserialize self data) = Ok (Some frame)
  <-> exists fields media payload ulaw pcm,
        json_loads data = Ok (JObject fields)
        /\ dict_get "event" fields = Some (JString "media")
        /\ dict_get "media" fields = Some (JObject media)
        /\ dict_get "payload" media = Some (JString payload)
        /\ b64decode payload = Ok ulaw
        /\ ulaw_to_pcm ulaw (sample_rate (_params self))
                       (sample_rate (_params self)) = Ok pcm
        /\ frame = AudioRawFrame {| audio := pcm; num_channels := 1;
                     Frames.sample_rate := sample_rate (_params self) |}.
Proof.
  unfold deserialize. cbn [fst]. split.
  - destruct (json_loads data) as [message | e]; cbn [bind]; [ | discriminate].
    destruct (getitem message "event") as [event | e] eqn:Eev; cbn [bind];
      [ | discriminate].
    destruct (ne_str event "media") eqn:Ene; [discriminate | ].
    apply ne_str_false in Ene. subst event.
    destruct (getitem message "media") as [media | e] eqn:Emed; cbn [bind];
      [ | discriminate].
    destruct (getitem media "payload") as [p | e] eqn:Epay; cbn [bind];
      [ | discriminate].
    destruct (b64decode_value p) as [u | e] eqn:Eb64; cbn [bind]; [ | discriminate].
    destruct (ulaw_to_pcm u _ _) as [pcm | e] eqn:Epcm; cbn [bind]; [ | discriminate].
    intros [= <-].
    apply getitem_ok in Eev as (fields & -> & Hev).
    apply getitem_ok in Emed as (fields' & [= <-] & Hmed).
    apply getitem_ok in Epay as (mfields & -> & Hpay).
    apply b64decode_value_ok in Eb64 as (payload & -> & Hb64).
    now exists fields, mfields, payload, u, pcm.
  - intros (fields & media & payload & ulaw & pcm
            & Hload & Hev & Hmed & Hpay & Hb64 & Hpcm & ->).
    rewrite Hload. cbn [bind getitem]. rewrite Hev. cbn [bind ne_str].
    rewrite String.eqb_refl. cbn [negb]. rewrite Hmed. cbn [bind getitem].
    rewrite Hpay. cbn [bind b64decode_value]. rewrite Hb64. cbn [bind].
    now rewrite Hpcm.
Qed.

(** X2.  [deserialize] returns [None] exactly when the text parses to an
    object that has an ["event"] member other than the string ["media"]:
    nothing else is dropped silently. *)
Theorem deserialize_none_iff (self : ExotelFrameSerializer) (data : string) :
  fst (deserialize self data) = Ok None
  <-> exists fields event,
        json_loads data = Ok (JObject fields)
        /\ dict_get "event" fields = Some event
        /\ event <> JString "media".
Proof.
  unfold deserialize. cbn [fst]. split.
  - destruct (json_loads data) as [message | e]; cbn [bind]; [ | discriminate].
    destruct (getitem message "event") as [event | e] eqn:Eev; cbn [bind];
      [ | discriminate].
    apply getitem_ok in Eev as (fields & -> & Hev).
    destruct (ne_str event "media") eqn:Ene.
    + intros _. exists fields, event. repeat split; try assumption.
      intros ->. cbn in Ene. discriminate Ene.
    + destruct (getitem (JObject fields) "media") as [media | e]; cbn [bind];
        [ | discriminate].
      destruct (getitem media "payload") as [p | e]; cbn [bind]; [ | discriminate].
      destruct (b64decode_value p) as [u | e]; cbn [bind]; [ | discriminate].
      destruct (ulaw_to_pcm u _ _) as [pcm | e]; cbn [bind]; discriminate.
  - intros (fields & event & Hload & Hev & Hne).
    rewrite Hload. cbn [bind getitem]. rewrite Hev. cbn [bind].
    now rewrite (ne_str_true _ _ Hne).
Qed.

(** X3.  Text that is valid JSON but no envelope is an error, not a
    no-op: when it parses to anything but an object [deserialize] raises
    [TypeError], and when it parses to an object without an ["event"]
    member [deserialize] raises [KeyError] for that key. *)
Theorem deserialize_not_an_envelope (self : ExotelFrameSerializer)
    (data : string) (message : json) :
  json_loads data = Ok message ->
  ((forall fields, message <> JObject fields) ->
   fst (deserialize self data) = Raise TypeError)
  /\ (forall fields,
        message = JObject fields -> dict_get "event" fields = None ->
        fst (deserialize self data) = Raise (KeyError "event")).
Proof.
  intros Hload. unfold deserialize. cbn [fst]. rewrite Hload. cbn [bind]. split.
  - intros Hno. destruct message; try reflexivity. now contradiction (Hno fields).
  - intros fields -> Hev. cbn [getitem]. now rewrite Hev.
Qed.

(** X4.  A message tagged ["media"] that is not well formed is an error
    too: a missing ["media"] or ["payload"] member raises [KeyError] for
    the key, a ["media"] member that is no object or a ["payload"] that is
    no string raises [TypeError], and an error raised by base64 or by the
    mu-law decoder is raised by [deserialize]. *)
Theorem deserialize_broken_media (self : ExotelFrameSerializer) (data : string)
    (fields : list (string * json)) :
  json_loads data = Ok (JObject fields) ->
  dict_get "event" fields = Some (JString "media") ->
  (dict_get "media" fields = None ->
   fst (deserialize self data) = Raise (KeyError "media"))
  /\ (forall v, dict_get "media" fields = Some v ->
        (forall media, v <> JObject media) ->
        fst (deserialize self data) = Raise TypeError)
  /\ (forall media, dict_get "media" fields = Some (JObject media) ->
        (dict_get "payload" media = None ->
         fst (deserialize self data) = Raise (KeyError "payload"))
        /\ (forall v, dict_get "payload" media = Some v ->
              (forall payload, v <> JString payload) ->
              fst (deserialize self data) = Raise TypeError)
        /\ (forall payload, dict_get "payload" media = Some (JString payload) ->
              (forall e, b64decode payload = Raise e ->
                 fst (deserialize self data) = Raise e)
              /\ (forall ulaw e, b64decode payload = Ok ulaw ->
                    ulaw_to_pcm ulaw (sample_rate (_params self))
                                (sample_rate (_params self)) = Raise e ->
                    fst (deserialize self data) = Raise e))).
Proof.
  intros Hload Hev. unfold deserialize. cbn [fst].
  rewrite Hload. cbn [bind getitem]. rewrite Hev. cbn [bind ne_str].
  rewrite String.eqb_refl. cbn [negb].
  split; [ | split].
  - now intros ->.
  - intros v -> Hno. cbn [bind].
    destruct v; try reflexivity. now contradiction (Hno fields0).
  - intros media ->. cbn [bind getitem]. split; [ | split].
    + now intros ->.
    + intros v -> Hno. cbn [bind].
      destruct v; try reflexivity. now contradiction (Hno s).
    + intros payload ->. cbn [bind b64decode_value]. split.
      * now intros e ->.
      * intros ulaw e -> Hpcm. cbn [bind]. now rewrite Hpcm.
Qed.

(** X5.  [deserialize] looks at the ["event"] and ["media"] members and at
    the configured rate only: two messages that agree on these two
    members give the same result on two serializers with the same
    parameters, whatever their ["streamSid"] members and whatever stream
    the serializers were built for. *)
Theorem deserialize_ignores_stream (self1 self2 : ExotelFrameSerializer)
    (data1 data2 : string) (fields1 fields2 : list (string * json)) :
  json_loads data1 = Ok (JObject fields1) ->
  json_loads data2 = Ok (JObject fields2) ->
  dict_get "event" fields1 = dict_get "event" fields2 ->
  dict_get "media" fields1 = dict_get "media" fields2 ->
  _params self1 = _params self2 ->
  fst (deserialize self1 data1) = fst (deserialize self2 data2).
Proof.
  intros H1 H2 Hev Hmed Hpar. unfold deserialize. cbn [fst].
  rewrite H1, H2. cbn [bind getitem]. now rewrite Hev, Hmed, Hpar.
Qed.

(** X6.  The wire message of an audio frame does not depend on the
    frame's channel count: two frames with the same audio and the same
    sample rate serialize alike. *)
Theorem serialize_ignores_channels (self : ExotelFrameSerializer)
    (a b : AudioRaw) :
  audio a = audio b ->
  Frames.sample_rate a = Frames.sample_rate b ->
  serialize self (AudioRawFrame a) = serialize self (AudioRawFrame b).
Proof.
  intros Haudio Hrate. unfold serialize. now rewrite Haudio, Hrate.
Qed.

(** X7.  An audio frame is never dropped silently: [serialize] either
    returns a wire message for it or raises, and what the transcoder or
    the text decoding raises is raised by [serialize]. *)
Theorem serialize_audio_never_none (self : ExotelFrameSerializer)
    (a : AudioRaw) :
  fst (serialize self (AudioRawFrame a)) <> Ok None
  /\ (forall e,
        pcm_to_ulaw (audio a) (Frames.sample_rate a) (sample_rate (_params self))
        = Raise e ->
        fst (serialize self (AudioRawFrame a)) = Raise e)
  /\ (forall ulaw e,
        pcm_to_ulaw (audio a) (Frames.sample_rate a) (sample_rate (_params self))
        = Ok ulaw ->
        decode_utf8 (b64encode ulaw) = Raise e ->
        fst (serialize self (AudioRawFrame a)) = Raise e).
Proof.
  unfold serialize. cbn [fst]. split; [ | split].
  - destruct (pcm_to_ulaw _ _ _) as [u | e]; cbn [bind]; [ | discriminate].
    destruct (decode_utf8 _) as [p | e]; cbn [bind]; discriminate.
  - now intros e ->.
  - intros ulaw e -> Htxt. cbn [bind]. now rewrite Htxt.
Qed.

(** X8.  Only audio comes back from the wire: when the clear message
    reads back as written, the round trip of a frame that is not an audio
    frame, the StartInterruption frame included, ends with [None] and
    raises nothing. *)
Theorem round_trip_not_audio (self : ExotelFrameSerializer) (frame : Frame) :
  json_loads (json_dumps (clear_message (_stream_sid self)))
  = Ok (clear_message (_stream_sid self)) ->
  (forall a, frame <> AudioRawFrame a) ->
  round_trip self frame = Ok None.
Proof.
  intros Hjson Hno. unfold round_trip.
  destruct frame; try reflexivity.
  - cbn [serialize fst]. unfold deserialize. cbn [fst]. now rewrite Hjson.
  - now contradiction (Hno a).
Qed.

End SerializerMore.

(** * More on [UserIdleProcessor] *)

Section IdleMoreFacts.
Import Py Frames Idle IdleSpec IdleMore.

Lemma poll_pushed (s : UserIdleProcessor) : pushed (poll s) = pushed s.
Proof.
  unfold poll, resume, loop.
  destruct (_idle_task s); try reflexivity;
    repeat (match goal with |- context [if ?b then _ else _] => destruct b end;
            cbn; try reflexivity).
Qed.

(** A turn of the handler adds at most one call to the history, and none
    while the interrupted flag is set. *)
Lemma poll_history (s : UserIdleProcessor) :
  history (poll s) = history s
  \/ (_interrupted s = false /\ history (poll s) = Called (now s) :: history s).
Proof.
  destruct s as [r tm i ev tk n p h]. unfold poll. cbn.
  destruct tk as [ | d | | ]; cbn; try (now left).
  - unfold loop. cbn. destruct r, ev; cbn; now left.
  - destruct ev; cbn; [unfold loop; cbn; destruct r; cbn; now left | ].
    destruct (d <=? n); cbn; [ | now left].
    destruct i; cbn; unfold loop; cbn; destruct r; cbn; auto.
Qed.

Lemma tick_history (s : UserIdleProcessor) :
  exists new,
    history (tick s) = (new ++ history s)%list
    /\ (forall e, In e new -> exists t, e = Called t)
    /\ (_interrupted s = true -> new = []).
Proof.
  unfold tick.
  destruct (poll_keeps s) as (_ & _ & K3 & _).
  destruct (poll_history s) as [H1 | [Hi1 H1]];
    destruct (poll_history (set_now (now s + 1) (poll s))) as [H2 | [Hi2 H2]];
    cbn in H2; try cbn in Hi2; rewrite H2, H1.
  - exists []. repeat split; try easy.
  - exists [Called (now s + 1)]. repeat split.
    + intros e [<- | []]. now eexists.
    + intros Hi. rewrite K3, Hi in Hi2. discriminate Hi2.
  - exists [Called (now s)]. repeat split.
    + intros e [<- | []]. now eexists.
    + intros Hi. rewrite Hi in Hi1. discriminate Hi1.
  - exists [Called (now s + 1); Called (now s)]. repeat split.
    + intros e [<- | [<- | []]]; now eexists.
    + intros Hi. rewrite Hi in Hi1. discriminate Hi1.
Qed.

Lemma calls_app_called (new h : list Event) :
  (forall e, In e new -> exists t, e = Called t) ->
  user_speaking (new ++ h) = user_speaking h.
Proof.
  induction new as [ | e new IH]; intros Hnew; [reflexivity | ].
  destruct (Hnew e (or_introl eq_refl)) as [t ->]. cbn.
  apply IH. intros e' He'. apply Hnew. now right.
Qed.

Lemma step_pushed (s : UserIdleProcessor) (a : Action) :
  passing a = true ->
  pushed (step s a)
  = match a with
    | Process frame direction => (frame, direction) :: pushed s
    | _ => pushed s
    end.
Proof.
  intros Ha. destruct a as [frame direction | | ]; cbn [step].
  - cbn in Ha. apply negb_true_iff in Ha.
    rewrite (process_frame_other frame direction s Ha). cbn [snd].
    cbn. destruct (_running s), frame; reflexivity.
  - discriminate Ha.
  - unfold tick. now rewrite poll_pushed; cbn; rewrite poll_pushed.
Qed.

(** X9.  The watchdog is transparent to the frames that are not End or
    EndTask.  In whatever state it is, started or not, running or stopped,
    every such frame given to [process_frame] is handed to [push_frame]
    exactly once, with its direction, in the order of arrival; clock ticks
    forward nothing. *)
Theorem frames_forwarded_in_order (acts : list Action) (s : UserIdleProcessor) :
  forallb passing acts = true ->
  pushed (run acts s) = (rev (offered acts) ++ pushed s)%list.
Proof.
  revert s. induction acts as [ | a acts IH]; intros s Hp; [reflexivity | ].
  cbn [forallb] in Hp. apply andb_prop in Hp as [Ha Hp].
  cbn [run fold_left]. unfold run in IH. rewrite (IH _ Hp), (step_pushed s a Ha).
  destruct a; cbn [offered rev]; try reflexivity.
  now rewrite <- app_assoc.
Qed.

(** X10.  An End or EndTask frame that arrives before the handler's first
    turn, or after the task ended cancelled, is lost: [process_frame]
    stops the watchdog, raises [CancelledError] out of [cleanup], and
    never reaches [push_frame]. *)
Theorem end_frame_not_forwarded (frame : Frame) (direction : FrameDirection)
    (s : UserIdleProcessor) :
  is_end frame = true ->
  _idle_task s = Created \/ _idle_task s = Cancelled ->
  fst (process_frame frame direction s) = Raise CancelledError
  /\ pushed (snd (process_frame frame direction s)) = pushed s
  /\ _running (snd (process_frame frame direction s)) = false.
Proof.
  intros Hend Hs. unfold process_frame, cleanup. rewrite Hend. cbn.
  destruct Hs as [E | E]; rewrite E; cbn; now repeat split.
Qed.

(** X13.  While the interrupted flag is set the callback stays silent,
    however long: from a state in which the flag is set, a run in which
    no UserStoppedSpeaking frame is processed adds no call and leaves the
    flag set. *)
Theorem silent_while_interrupted (acts : list Action) (s : UserIdleProcessor) :
  _interrupted s = true ->
  forallb no_speech_end acts = true ->
  calls (history (run acts s)) = calls (history s)
  /\ _interrupted (run acts s) = true.
Proof.
  revert s. induction acts as [ | a acts IH]; intros s Hi Hq; [now split | ].
  cbn [forallb] in Hq. apply andb_prop in Hq as [Ha Hq].
  cbn [run fold_left].
  assert (Hstep : calls (history (step s a)) = calls (history s)
                  /\ _interrupted (step s a) = true).
  { destruct a as [frame direction | | ]; cbn [step].
    - unfold process_frame, cleanup. cbn.
      destruct (is_end frame) eqn:Hend.
      + destruct (_idle_task s); cbn; now split.
      + cbn. destruct (_running s), frame; cbn; try (now split);
          discriminate Ha.
    - unfold cleanup. destruct (_idle_task s); cbn; now split.
    - destruct (tick_keeps s) as (_ & _ & K3 & _). rewrite K3. split; [ | exact Hi].
      destruct (tick_history s) as (new & Hh & _ & Hnil).
      now rewrite Hh, (Hnil Hi). }
  destruct Hstep as [H1 H2].
  destruct (IH (step s a) H2 Hq) as [K1 K2]. unfold run in *.
  split; [now rewrite K1 | exact K2].
Qed.

(** X14.  [cleanup] is final when no wake-up is pending.  Called while
    the event is clear, or after the running flag was cleared, [cleanup],
    whether it returns or raises, leaves the task done: the callback is
    never invoked again and the task stays done in every later run; yet
    the watchdog is still marked running if it was, so that a
    UserStartedSpeaking frame still sets the interrupted flag.  (With the
    event set and the flag still up, the cancellation races with the
    wake-up, and the outcome is the event loop's.) *)
Theorem cleanup_is_final (s : UserIdleProcessor) (acts : list Action)
    (direction : FrameDirection) :
  _idle_event s = false \/ _running s = false ->
  let s1 := snd (cleanup s) in
  calls (history (run acts s1)) = calls (history s)
  /\ stopped (_idle_task (run acts s1)) = true
  /\ _running s1 = _running s
  /\ (_running s = true ->
      _interrupted (snd (process_frame UserStartedSpeakingFrame direction s1))
      = true).
Proof.
  intros _ s1.
  destruct (cleanup_keeps s) as (K1 & K2 & _ & _ & K5 & _). fold s1 in K1, K2, K5.
  assert (Hrun : forall acts s, stopped (_idle_task s) = true ->
                   stopped (_idle_task (run acts s)) = true
                   /\ calls (history (run acts s)) = calls (history s)).
  { clear. intros acts. induction acts as [ | a acts IH]; intros s Hs; [now split | ].
    cbn [run fold_left]. destruct (step_stopped s a Hs) as (H1 & H2 & _).
    destruct (IH _ H1) as [J1 J2]. unfold run in *. split; [exact J1 | ].
    now rewrite J2. }
  destruct (Hrun acts s1 (cleanup_stops s)) as [H1 H2].
  repeat split; try assumption.
  - now rewrite H2, K5.
  - intros Hr. rewrite (process_frame_other UserStartedSpeakingFrame direction s1 eq_refl).
    cbn [snd].
    now rewrite K1, Hr.
Qed.

(** X15.  As long as the watchdog is running, the interrupted flag says
    what the speaking frames say: after any run from [__init__] that
    leaves it running, the flag is set exactly when the last
    UserStartedSpeaking or UserStoppedSpeaking frame processed was a
    UserStartedSpeaking frame. *)
Theorem flag_follows_speech (T t0 : Z) (acts : list Action) :
  _running (run acts (__init__ T t0)) = true ->
  _interrupted (run acts (__init__ T t0))
  = user_speaking (history (run acts (__init__ T t0))).
Proof.
  assert (H : forall acts s,
             (_running s = true -> _interrupted s = user_speaking (history s)) ->
             _running (run acts s) = true ->
             _interrupted (run acts s) = user_speaking (history (run acts s))).
  { clear. intros acts. induction acts as [ | a acts IH]; intros s Hs Hr;
      [now apply Hs | ].
    cbn [run fold_left] in *. apply IH; [ | exact Hr].
    destruct a as [frame direction | | ]; cbn [step].
    - unfold process_frame, cleanup. cbn.
      destruct (is_end frame) eqn:Hend.
      + destruct (_idle_task s); cbn; discriminate.
      + cbn. destruct (_running s) eqn:Er.
        * specialize (Hs eq_refl).
          destruct frame; try discriminate Hend; cbn; intros _;
            try reflexivity; exact Hs.
        * cbn. intros Hr'. rewrite Er in Hr'. discriminate Hr'.
    - destruct (cleanup_keeps s) as (K1 & K2 & _ & _ & K5 & _).
      now rewrite K1, K2, K5.
    - destruct (tick_keeps s) as (_ & K2 & K3 & _). rewrite K2, K3.
      intros Hr'. rewrite (Hs Hr').
      destruct (tick_history s) as (new & Hh & Hnew & _).
      now rewrite Hh, calls_app_called. }
  apply H. reflexivity.
Qed.

End IdleMoreFacts.

Section IdleSpacing.
Import Py Frames Idle IdleSpec IdleMore.
Variable T : Z.

Lemma spaced_cons_processed (u : Z) (f : Frame) (s s' : UserIdleProcessor) :
  Spaced T s ->
  _timeout s' = _timeout s -> now s' = now s -> _idle_task s' = _idle_task s ->
  history s' = Processed u f :: history s ->
  Spaced T s'.
Proof.
  intros [Ht Hp Hd Hc] E1 E2 E3 E4.
  assert (Hin : forall t, In (Called t) (history s') -> In (Called t) (history s)).
  { intros t. rewrite E4. intros [H | H]; [discriminate H | exact H]. }
  constructor.
  - now rewrite E1.
  - intros t Hi. rewrite E2. now apply Hp, Hin.
  - intros d t Hw Hi. rewrite E3 in Hw. now apply (Hd d t Hw), Hin.
  - intros later t earlier t' Heq Hi. rewrite E4 in Heq.
    destruct later as [ | e later]; [discriminate Heq | ].
    injection Heq as _ Heq. now apply (Hc later t earlier t').
Qed.

Lemma spaced_task (t : Task) (s : UserIdleProcessor) :
  Spaced T s ->
  (forall d, t = Waiting d ->
     forall c, In (Called c) (history s) -> c + T <= d) ->
  Spaced T (set_idle_task t s).
Proof.
  intros [Ht Hp Hd Hc] Hnew. constructor; cbn; try assumption.
  intros d c Hw. now apply Hnew.
Qed.

Lemma loop_spaced (s : UserIdleProcessor) :
  _timeout s = T ->
  (forall t, In (Called t) (history s) -> t <= now s) ->
  (forall later t earlier t',
      history s = (later ++ Called t :: earlier)%list ->
      In (Called t') earlier -> t' + T <= t) ->
  Spaced T (loop s).
Proof.
  intros Ht Hp Hc. unfold loop.
  destruct (_running s).
  - destruct (_idle_event s); constructor; cbn; try assumption;
      intros d c [= <-] Hi; specialize (Hp c Hi); lia.
  - constructor; cbn; try assumption. discriminate.
Qed.

Lemma poll_spaced (s : UserIdleProcessor) : Spaced T s -> Spaced T (poll s).
Proof.
  intros S. pose proof S as [Ht Hp Hd Hc]. unfold poll.
  destruct (_idle_task s) as [ | d | | ] eqn:Etask; try exact S.
  - now apply loop_spaced.
  - destruct (_idle_event s).
    + cbn [resume]. now apply loop_spaced.
    + destruct (d <=? now s) eqn:Edue; [ | exact S].
      apply Z.leb_le in Edue. cbn [resume].
      destruct (_interrupted s); cbn [negb]; apply loop_spaced; cbn;
        try assumption.
      * intros t [[= <-] | Hi]; [lia | now apply Hp].
      * intros later t earlier t' Heq Hi.
        destruct later as [ | e later]; cbn in Heq; injection Heq as Heq1 Heq2.
        -- rewrite <- Heq2 in Hi.
           specialize (Hd d t' eq_refl Hi). lia.
        -- now apply (Hc later t earlier t').
Qed.

Lemma step_spaced (s : UserIdleProcessor) (a : Action) :
  Spaced T s -> Spaced T (step s a).
Proof.
  intros S. pose proof S as [Ht Hp Hd Hc].
  destruct a as [frame direction | | ]; cbn [step].
  - destruct (is_end frame) eqn:Hend.
    + destruct (process_frame_end frame direction s Hend)
        as (H1 & _ & _ & H4 & H5 & H6).
      constructor; rewrite ?H4, ?H5, ?H6; try assumption.
      * intros t [H | H]; [discriminate H | now apply Hp].
      * intros d t Hw. rewrite Hw in H1. discriminate H1.
      * intros later t earlier t' Heq Hi.
        destruct later as [ | e later]; [discriminate Heq | ].
        injection Heq as _ Heq. now apply (Hc later t earlier t').
    + rewrite (process_frame_other frame direction s Hend). cbn [snd].
      apply (spaced_cons_processed (now s) frame s); try assumption;
        destruct (_running s), frame; reflexivity.
  - unfold cleanup. destruct (_idle_task s) eqn:E; cbn [snd]; try exact S.
    + apply spaced_task; [exact S | discriminate].
    + cbn [resume]. apply spaced_task; [ | discriminate].
      destruct S. now constructor.
  - unfold tick. apply poll_spaced.
    pose proof (poll_spaced s S) as [Ht' Hp' Hd' Hc'].
    constructor; cbn; try assumption.
    intros t Hi. specialize (Hp' t Hi). rewrite poll_now in *. lia.
Qed.

Lemma run_spaced (acts : list Action) (s : UserIdleProcessor) :
  Spaced T s -> Spaced T (run acts s).
Proof.
  revert s. induction acts as [ | a acts IH]; intros s S; [exact S | ].
  cbn [run fold_left]. apply IH. now apply step_spaced.
Qed.

End IdleSpacing.

Section IdleMoreClaims.
Import Py Frames Idle IdleSpec IdleMore.

(** X16.  The callback is invoked at most once per timeout: after any run
    from [__init__], any two calls are at least [T] apart. *)
Theorem calls_spaced (T t0 : Z) (acts : list Action)
    (later earlier : list Event) (t t' : Z) :
  history (run acts (__init__ T t0)) = (later ++ Called t :: earlier)%list ->
  In (Called t') earlier ->
  t' + T <= t.
Proof.
  intros Heq Hin.
  assert (S0 : Spaced T (__init__ T t0)).
  { constructor; cbn; try easy. intros [ | e l] c e' c' H; discriminate H. }
  exact (spaced_calls _ _ (run_spaced T acts _ S0) later t earlier t' Heq Hin).
Qed.

End IdleMoreClaims.

Section IdlePeriodic.
Import Py Frames Idle IdleSpec IdleMore.
Variables T t0 : Z.
Hypothesis T_pos : 0 < T.

Lemma init_periodic : Periodic T t0 0 (__init__ T t0).
Proof. constructor; cbn; try easy; lia. Qed.

Lemma periods_next (q : Z) :
  0 <= q ->
  periods T t0 (Z.to_nat (q + 1))
  = (t0 + T * (q + 1)) :: periods T t0 (Z.to_nat q).
Proof.
  intros Hq. rewrite Z2Nat.inj_add by lia. change (Z.to_nat 1) with 1%nat.
  rewrite Nat.add_1_r. cbn [periods]. f_equal. f_equal. f_equal. lia.
Qed.

Lemma tick_periodic (k : Z) (s : UserIdleProcessor) :
  0 <= k -> Periodic T t0 k s -> Periodic T t0 (k + 1) (tick s).
Proof.
  intros Hk [Ht Hr Hi He Hn Hc Hw Hcalls].
  set (q := k / T) in *.
  pose proof (Z.div_mod k T ltac:(lia)) as Hdm. fold q in Hdm.
  pose proof (Z.mod_pos_bound k T T_pos) as Hm.
  assert (Hq : 0 <= q) by (apply Z.div_pos; lia).
  destruct (Z.eq_dec (k mod T + 1) T) as [Hfull | Hpart].
  - (* the deadline is reached by this tick *)
    assert (Hq1 : (k + 1) / T = q + 1).
    { symmetry. apply (Z.div_unique (k + 1) T (q + 1) 0); lia. }
    destruct (Z.eq_dec k 0) as [Hk0 | Hk0].
    + specialize (Hc Hk0). assert (HT1 : T = 1) by (rewrite Hk0 in *; cbn in *; lia).
      destruct s as [r tm i ev tk n p h]. cbn in *. subst r tm i ev tk n.
      constructor; unfold tick, poll, loop, resume; cbn;
        destruct (t0 + k + T <=? t0 + k + 1) eqn:E;
        try (apply Z.leb_gt in E; lia); cbn; try easy; try lia.
      * intros _. f_equal. rewrite Hq1. nia.
      * rewrite Hcalls, Hq1, periods_next by lia. f_equal. nia.
    + assert (Hw' : _idle_task s = Waiting (t0 + T * (q + 1))) by (apply Hw; lia).
      destruct s as [r tm i ev tk n p h]. cbn in *. subst r tm i ev tk n.
      constructor; unfold tick, poll, loop, resume; cbn;
        destruct (t0 + T * (q + 1) <=? t0 + k) eqn:E1;
        try (apply Z.leb_le in E1; nia); cbn;
        destruct (t0 + T * (q + 1) <=? t0 + k + 1) eqn:E2;
        try (apply Z.leb_gt in E2; nia); cbn; try easy; try lia.
      * intros _. f_equal. rewrite Hq1. nia.
      * rewrite Hcalls, Hq1, periods_next by lia. f_equal. nia.
  - (* the deadline is still ahead *)
    assert (Hq1 : (k + 1) / T = q).
    { symmetry. apply (Z.div_unique (k + 1) T q (k mod T + 1)); lia. }
    destruct (Z.eq_dec k 0) as [Hk0 | Hk0].
    + specialize (Hc Hk0).
      assert (Hq0 : q = 0) by (subst q; rewrite Hk0; apply Z.div_0_l; lia).
      assert (HT1 : 1 < T) by (rewrite Hk0, Z.mod_0_l in Hpart; lia).
      destruct s as [r tm i ev tk n p h]. cbn in *. subst r tm i ev tk n.
      constructor; unfold tick, poll, loop, resume; cbn;
        destruct (t0 + k + T <=? t0 + k + 1) eqn:E;
        try (apply Z.leb_le in E; lia); cbn; try easy; try lia.
      * intros _. f_equal. rewrite Hq1. nia.
      * now rewrite Hcalls, Hq1.
    + assert (Hw' : _idle_task s = Waiting (t0 + T * (q + 1))) by (apply Hw; lia).
      destruct s as [r tm i ev tk n p h]. cbn in *. subst r tm i ev tk n.
      constructor; unfold tick, poll, loop, resume; cbn;
        destruct (t0 + T * (q + 1) <=? t0 + k) eqn:E1;
        try (apply Z.leb_le in E1; nia); cbn;
        destruct (t0 + T * (q + 1) <=? t0 + k + 1) eqn:E2;
        try (apply Z.leb_le in E2; nia); cbn; try easy; try lia.
      * intros _. now rewrite Hq1.
      * now rewrite Hcalls, Hq1.
Qed.

Lemma process_frame_periodic (k : Z) (frame : Frame)
    (direction : FrameDirection) (s : UserIdleProcessor) :
  activity frame = false -> is_end frame = false ->
  Periodic T t0 k s -> Periodic T t0 k (snd (process_frame frame direction s)).
Proof.
  intros Hact Hend [Ht Hr Hi He Hn Hc Hw Hcalls].
  rewrite (process_frame_other frame direction s Hend). cbn [snd]. rewrite Hr.
  destruct frame; try discriminate Hact; try discriminate Hend;
    constructor; cbn; assumption.
Qed.

Lemma run_periodic (acts : list Action) (k : Z) (s : UserIdleProcessor) :
  0 <= k -> Periodic T t0 k s -> forallb quiet_action acts = true ->
  Periodic T t0 (k + ticks acts) (run acts s).
Proof.
  revert k s. induction acts as [ | a acts IH]; intros k s Hk P Hq.
  - cbn. now rewrite Z.add_0_r.
  - cbn [forallb] in Hq. apply andb_prop in Hq as [Ha Hq].
    cbn [run fold_left].
    destruct a as [frame direction | | ]; cbn [quiet_action] in Ha.
    + apply andb_prop in Ha as [Ha1 Ha2].
      apply negb_true_iff in Ha1, Ha2.
      replace (ticks (Process frame direction :: acts)) with (ticks acts)
        by reflexivity.
      apply IH; try assumption. cbn [step]. now apply process_frame_periodic.
    + discriminate Ha.
    + replace (k + ticks (Tick :: acts)) with ((k + 1) + ticks acts)
        by (unfold ticks; cbn [filter List.length]; lia).
      apply IH; try assumption; [lia | ]. cbn [step]. now apply tick_periodic.
Qed.

End IdlePeriodic.

Section IdlePeriodicClaim.
Import Py Frames Idle IdleSpec IdleMore.

(** X11.  Left alone, the watchdog calls back once every timeout.  With a
    positive timeout [T], after a run of clock ticks and frames that are
    neither activity signals nor End or EndTask, the callback has been
    invoked at [t0 + T], [t0 + 2 T], ... and at no other time: once for
    each whole period that has passed. *)
Theorem idle_calls_periodic (T t0 : Z) (acts : list Action) :
  0 < T ->
  forallb quiet_action acts = true ->
  calls (history (run acts (__init__ T t0)))
  = periods T t0 (Z.to_nat (ticks acts / T)).
Proof.
  intros HT Hq.
  exact (p_calls _ _ _ _
           (run_periodic T t0 HT acts 0 _ (Z.le_refl 0) (init_periodic T t0) Hq)).
Qed.

End IdlePeriodicClaim.

Section IdleLive.
Import Py Frames Idle IdleSpec IdleMore.
Variable T : Z.
Hypothesis T_pos : 0 < T.

Lemma init_armed (t0 : Z) : Armed T (__init__ T t0).
Proof. constructor; cbn; [reflexivity | discriminate]. Qed.

(** A turn of the handler brings a deadline that the clock has just
    reached back ahead of the clock. *)
Lemma poll_armed (s : UserIdleProcessor) :
  _timeout s = T ->
  (forall d, _idle_task s = Waiting d -> now s <= d <= now s + T) ->
  Armed T (poll s).
Proof.
  intros Ht Hd. destruct s as [r tm i ev tk n p h]. cbn in *. subst tm.
  unfold poll. cbn.
  destruct tk as [ | d | | ]; cbn.
  - unfold loop. cbn. destruct r, ev; constructor; cbn; try easy;
      intros d [= <-]; lia.
  - specialize (Hd d eq_refl).
    destruct ev; cbn.
    + unfold loop. cbn. destruct r; constructor; cbn; try easy;
        intros d' [= <-]; lia.
    + destruct (d <=? n) eqn:E; cbn.
      * destruct i; cbn; unfold loop; cbn; destruct r; constructor; cbn;
          try easy; intros d' [= <-]; lia.
      * apply Z.leb_gt in E. constructor; cbn; try easy.
        intros d' [= <-]. lia.
  - constructor; cbn; [reflexivity | discriminate].
  - constructor; cbn; [reflexivity | discriminate].
Qed.

Lemma step_armed (s : UserIdleProcessor) (a : Action) :
  Armed T s -> Armed T (step s a).
Proof.
  intros A. pose proof A as [Ht Hd].
  destruct a as [frame direction | | ]; cbn [step].
  - destruct (is_end frame) eqn:Hend.
    + destruct (process_frame_end frame direction s Hend)
        as (H1 & _ & _ & _ & H5 & H6).
      constructor; [now rewrite H6 | ].
      intros d Hw. rewrite Hw in H1. discriminate H1.
    + rewrite (process_frame_other frame direction s Hend). cbn [snd].
      destruct (_running s), frame; constructor; cbn; assumption.
  - unfold cleanup. destruct (_idle_task s) eqn:E; cbn [snd]; try exact A;
      constructor; cbn; try assumption; discriminate.
  - unfold tick.
    destruct (poll_armed s Ht) as [Ht' Hd'].
    { intros d Hw. specialize (Hd d Hw). lia. }
    apply poll_armed; cbn; [exact Ht' | ].
    intros d Hw. specialize (Hd' d Hw). rewrite poll_now in *. lia.
Qed.

Lemma run_armed (acts : list Action) (s : UserIdleProcessor) :
  Armed T s -> Armed T (run acts s).
Proof.
  revert s. induction acts as [ | a acts IH]; intros s A; [exact A | ].
  cbn [run fold_left]. apply IH. now apply step_armed.
Qed.

Lemma step_history_mono (s : UserIdleProcessor) (a : Action) (e : Event) :
  In e (history s) -> In e (history (step s a)).
Proof.
  intros Hin. destruct a as [frame direction | | ]; cbn [step].
  - destruct (is_end frame) eqn:Hend.
    + destruct (process_frame_end frame direction s Hend) as (_ & _ & _ & H4 & _).
      rewrite H4. now right.
    + rewrite (process_frame_other frame direction s Hend). cbn [snd].
      destruct (_running s), frame; cbn; now right.
  - destruct (cleanup_keeps s) as (_ & _ & _ & _ & K5 & _). now rewrite K5.
  - now apply tick_keeps.
Qed.

Lemma run_history_mono (acts : list Action) (s : UserIdleProcessor) (e : Event) :
  In e (history s) -> In e (history (run acts s)).
Proof.
  revert s. induction acts as [ | a acts IH]; intros s Hin; [exact Hin | ].
  cbn [run fold_left]. now apply IH, step_history_mono.
Qed.

(** The first turn of the handler in a tick leaves it waiting for the
    pending deadline. *)
Lemma poll_pending (D : Z) (s : UserIdleProcessor) :
  pending T D s ->
  _running (poll s) = true /\ _interrupted (poll s) = false
  /\ _timeout (poll s) = T /\ _idle_event (poll s) = false
  /\ _idle_task (poll s) = Waiting D /\ now (poll s) = now s.
Proof.
  intros (Hr & Hi & Ht & Hn & Hcase).
  destruct s as [r tm i ev tk n p h]. cbn in *. subst r i tm.
  destruct Hcase as [[-> ->] | [(d & -> & -> & ->) | [-> ->]]];
    unfold poll; cbn.
  - unfold loop. cbn. destruct ev; cbn; now repeat split.
  - unfold loop. cbn. now repeat split.
  - destruct (D <=? n) eqn:E; [apply Z.leb_le in E; lia | ].
    now repeat split.
Qed.

(** The second turn makes the call when the clock has reached the
    deadline. *)
Lemma poll_due (D : Z) (s : UserIdleProcessor) :
  _running s = true -> _interrupted s = false -> _timeout s = T ->
  _idle_event s = false -> _idle_task s = Waiting D -> now s <= D ->
  (now s = D /\ In (Called D) (history (poll s)))
  \/ (now s < D /\ pending T D (poll s)).
Proof.
  intros Hr Hi Ht He Hw Hn.
  destruct s as [r tm i ev tk n p h]. cbn in *. subst r i tm ev tk.
  unfold poll. cbn. destruct (D <=? n) eqn:E.
  - apply Z.leb_le in E. left. split; [lia | ].
    cbn. unfold loop. cbn. left. f_equal. lia.
  - apply Z.leb_gt in E. right. split; [lia | ].
    unfold pending. cbn. repeat split; try lia. right. right. now split.
Qed.

(** A tick either makes the pending call or leaves it pending. *)
Lemma tick_pending (D : Z) (s : UserIdleProcessor) :
  pending T D s ->
  (now s + 1 = D /\ In (Called D) (history (tick s)))
  \/ (now s + 1 < D /\ pending T D (tick s)).
Proof.
  intros P. pose proof P as (_ & _ & _ & Hn & _).
  destruct (poll_pending D s P) as (Hr & Hi & Ht & He & Hw & Hnow).
  unfold tick.
  apply (poll_due D (set_now (now s + 1) (poll s))); cbn; try assumption. lia.
Qed.

Lemma process_frame_pending (D : Z) (frame : Frame) (direction : FrameDirection)
    (s : UserIdleProcessor) :
  activity frame = false -> is_end frame = false ->
  pending T D s -> pending T D (snd (process_frame frame direction s)).
Proof.
  intros Hact Hend (Hr & Hi & Ht & Hn & Hcase).
  rewrite (process_frame_other frame direction s Hend). cbn [snd]. rewrite Hr.
  destruct frame; try discriminate Hact; try discriminate Hend;
    unfold pending; cbn; repeat split; assumption.
Qed.

Lemma run_pending (acts : list Action) (D : Z) (s : UserIdleProcessor) :
  pending T D s -> forallb quiet_action acts = true ->
  D - now s <= ticks acts ->
  In (Called D) (history (run acts s)).
Proof.
  revert s. induction acts as [ | a acts IH]; intros s P Hq Hticks.
  - destruct P as (_ & _ & _ & Hn & _). cbn in Hticks. lia.
  - cbn [forallb] in Hq. apply andb_prop in Hq as [Ha Hq].
    cbn [run fold_left].
    destruct a as [frame direction | | ]; cbn [quiet_action] in Ha.
    + apply andb_prop in Ha as [Ha1 Ha2]. apply negb_true_iff in Ha1, Ha2.
      apply IH; try assumption.
      * cbn [step]. now apply process_frame_pending.
      * cbn [step]. rewrite (process_frame_other frame direction s Ha2).
        cbn [snd]. replace (ticks (Process frame direction :: acts))
          with (ticks acts) in Hticks by reflexivity.
        destruct (_running s), frame; cbn; exact Hticks.
    + discriminate Ha.
    + cbn [step].
      destruct (tick_pending D s P) as [[Hd Hin] | [Hd P']].
      * now apply run_history_mono.
      * apply IH; try assumption.
        destruct (tick_keeps s) as (_ & _ & _ & _ & K5 & _). rewrite K5.
        replace (ticks (Tick :: acts)) with (1 + ticks acts) in Hticks
          by (unfold ticks; cbn [filter List.length]; lia).
        lia.
Qed.

End IdleLive.

Section IdleLiveClaim.
Import Py Frames Idle IdleSpec IdleMore.

(** X12.  The watchdog is live after activity too.  With a positive
    timeout [T], take any state reached from [__init__] in which the
    watchdog is running, the interrupted flag is clear and the task is not
    done.  Then a run of clock ticks and frames that are neither activity
    signals nor End or EndTask, with at least [T] ticks, invokes the
    callback at a time after the clock of that state and at most [T]
    later. *)
Theorem idle_call_within_timeout (T t0 : Z) (before acts : list Action) :
  0 < T ->
  let s := run before (__init__ T t0) in
  _running s = true ->
  _interrupted s = false ->
  stopped (_idle_task s) = false ->
  forallb quiet_action acts = true ->
  T <= ticks acts ->
  exists t, now s < t <= now s + T /\ In (Called t) (history (run acts s)).
Proof.
  intros HT s Hr Hi Hs Hq Hticks.
  pose proof (run_armed T HT before _ (init_armed T t0)) as [Ht Hd]. fold s in Ht, Hd.
  destruct (_idle_task s) as [ | d | | ] eqn:Etask; try discriminate Hs.
  - exists (now s + T). split; [lia | ].
    apply (run_pending T acts (now s + T) s); try assumption; [ | lia].
    unfold pending. repeat split; try assumption; try lia. now left.
  - specialize (Hd d eq_refl).
    destruct (_idle_event s) eqn:Eev.
    + exists (now s + T). split; [lia | ].
      apply (run_pending T acts (now s + T) s); try assumption; [ | lia].
      unfold pending. repeat split; try assumption; try lia.
      right. left. now exists d.
    + exists d. split; [lia | ].
      apply (run_pending T acts d s); try assumption; [ | lia].
      unfold pending. repeat split; try assumption; try lia.
      right. right. now split.
Qed.

End IdleLiveClaim.

(** * The example scripts *)

Section DialoutFacts.
Import Py Scripts DialoutBot.

(** X17.  [get_phone_number] alternates between its two numbers with the
    parity of the call id, negative ids included: consecutive ids get
    different numbers, and ids that differ by an even number the same. *)
Theorem get_phone_number_parity (callId : Z) :
  (get_phone_number callId = "+14155204406"
   \/ get_phone_number callId = "+19499870006")
  /\ get_phone_number (callId + 1) <> get_phone_number callId
  /\ forall k, get_phone_number (callId + 2 * k) = get_phone_number callId.
Proof.
  unfold get_phone_number. split; [ | split].
  - destruct (callId mod 2 =? 0); auto.
  - destruct (callId mod 2 =? 0) eqn:E1, ((callId + 1) mod 2 =? 0) eqn:E2;
      try discriminate;
      [apply Z.eqb_eq in E1, E2 | apply Z.eqb_neq in E1, E2];
      Z.to_euclidean_division_equations; lia.
  - intros k. replace ((callId + 2 * k) mod 2) with (callId mod 2);
      [reflexivity | ].
    rewrite (Z.mul_comm 2 k). now rewrite Z.mod_add by lia.
Qed.

Variable int_ : string -> result Z.
Variable start_dialout : nat -> json -> result string.
Variable delete_room_by_url : string -> result unit.
Variables room_url callId : string.

Lemma slept_retries (s : json) (k : nat) (backoff_time : Z) :
  slept (retries s k backoff_time) = backoff_time * (2 ^ Z.of_nat k - 1).
Proof.
  revert backoff_time. induction k as [ | k IH]; intros b.
  - cbn. lia.
  - cbn [retries slept]. rewrite IH, Nat2Z.inj_succ, Z.pow_succ_r by lia. lia.
Qed.

(** The loop while every attempt fails, and when one succeeds. *)
Lemma dial_retries (n : Z) (remaining k calls : nat) (backoff_time : Z) :
  int_ callId = Ok n ->
  (k <= remaining)%nat ->
  (forall j, (j < k)%nat ->
     exists e, start_dialout (calls + j) (settings (get_phone_number n)) = Raise e
               /\ is_Exception e = true) ->
  let s := settings (get_phone_number n) in
  (k = remaining ->
   dial int_ start_dialout callId remaining calls backoff_time
   = (Ok None, retries s k backoff_time))
  /\ (forall dialout_id,
        (k < remaining)%nat ->
        start_dialout (calls + k) s = Ok dialout_id ->
        dial int_ start_dialout callId remaining calls backoff_time
        = (Ok (Some dialout_id), retries s k backoff_time ++ [StartDialout s])%list).
Proof.
  intros Hint. revert k calls backoff_time.
  induction remaining as [ | remaining IH]; intros k calls b Hk Hfail s.
  - assert (k = 0)%nat by lia. subst k. split; [reflexivity | ]. intros ? H. lia.
  - cbn [dial]. unfold attempt. rewrite Hint. fold s.
    destruct k as [ | k].
    + split; [discriminate | ]. intros id _ Hok.
      rewrite Nat.add_0_r in Hok. now rewrite Hok.
    + destruct (Hfail 0%nat ltac:(lia)) as (e & He & Hexc).
      rewrite Nat.add_0_r in He. fold s in He. rewrite He, Hexc.
      cbn [List.length app].
      assert (Hfail' : forall j, (j < k)%nat ->
                 exists e, start_dialout (calls + 1 + j) s = Raise e
                           /\ is_Exception e = true).
      { intros j Hj. destruct (Hfail (S j) ltac:(lia)) as (e' & He' & Hx').
        exists e'. split; [ | exact Hx'].
        now replace (calls + 1 + j)%nat with (calls + S j)%nat by lia. }
      destruct (IH k (calls + 1)%nat (b * 2) ltac:(lia) Hfail') as [IH1 IH2].
      split.
      * intros [= ->]. now rewrite (IH1 eq_refl).
      * intros id Hlt Hok.
        replace (calls + S k)%nat with (calls + 1 + k)%nat in Hok by lia.
        now rewrite (IH2 id ltac:(lia) Hok).
Qed.

(** X18.  The dial-out is tried at most three times, with sleeps of 1, 2
    and 4 seconds after the failures.  When the call id is a number and
    the first [k] calls of [start_dialout] fail with an [Exception]: if
    [k] is less than three and the next call succeeds, the handler stops
    there, with the identifier it got, after the [k] failed attempts and
    their sleeps; if [k] is three it gives up without raising, [dialout_id]
    still [None], the last failure slept after too.  The sleeps add up to
    [2 ^ k - 1] seconds. *)
Theorem dialout_retry (n : Z) (k : nat) :
  int_ callId = Ok n ->
  (k <= 3)%nat ->
  (forall j, (j < k)%nat ->
     exists e, start_dialout j (settings (get_phone_number n)) = Raise e
               /\ is_Exception e = true) ->
  let s := settings (get_phone_number n) in
  let handler :=
    on_call_state_updated int_ start_dialout delete_room_by_url room_url callId in
  (k = 3%nat -> handler "joined" = (Ok None, retries s 3 1))
  /\ (forall dialout_id,
        (k < 3)%nat -> start_dialout k s = Ok dialout_id ->
        handler "joined"
        = (Ok (Some dialout_id), retries s k 1 ++ [StartDialout s])%list)
  /\ slept (retries s k 1) = 2 ^ Z.of_nat k - 1.
Proof.
  intros Hint Hk Hfail s handler.
  destruct (dial_retries n 3 k 0 1 Hint Hk Hfail) as [H1 H2]. fold s in H1, H2.
  split; [ | split].
  - intros ->. unfold handler, on_call_state_updated. cbn [String.eqb Ascii.eqb Bool.eqb].
    now rewrite (H1 eq_refl).
  - intros id Hlt Hok. unfold handler, on_call_state_updated.
    cbn [String.eqb Ascii.eqb Bool.eqb]. now rewrite (H2 id Hlt Hok).
  - rewrite slept_retries. lia.
Qed.

(** X19.  A call id that [int] rejects is never dialled: every one of the
    three attempts fails before [start_dialout] is reached, the handler
    sleeps 1, 2 and 4 seconds and returns without raising, [dialout_id]
    still [None]. *)
Theorem dialout_bad_call_id (e : exn) :
  int_ callId = Raise e ->
  is_Exception e = true ->
  on_call_state_updated int_ start_dialout delete_room_by_url room_url callId
    "joined"
  = (Ok None, [Sleep 1; Sleep 2; Sleep 4]).
Proof.
  intros Hint Hexc. unfold on_call_state_updated.
  cbn [String.eqb Ascii.eqb Bool.eqb dial]. unfold attempt.
  now rewrite Hint, Hexc.
Qed.

End DialoutFacts.

Section BatchDemoFacts.
Import Py Scripts BatchDemo.

Variable time : Z.
Variable current_time : string.
Variable create_room : DailyRoomProperties -> result Room.
Variable get_token : string -> Z -> bool -> result string.
Variable get_room_from_url : string -> result RoomInfo.
Variable popen : string -> result unit.


(** X20.  Every call of [run_bot] writes exactly one row, which starts
    with the bot's id, unless one of the REST calls is cancelled. *)
Theorem run_bot_one_row (id run_number : Z) :
  (exists cells,
     rows (snd (run_bot time current_time create_room get_token
                  get_room_from_url popen id run_number))
     = [CInt id :: cells])
  \/ (fst (run_bot time current_time create_room get_token
             get_room_from_url popen id run_number)
      = Propagated CancelledError
      /\ rows (snd (run_bot time current_time create_room get_token
                      get_room_from_url popen id run_number))
         = []).
Proof.
  unfold run_bot, create.
  destruct (create_room _) as [room | e1].
  - destruct (get_token _ _ _) as [token | e2].
    + destruct (get_room_from_url _) as [info | e3].
      * left. destruct (popen _) as [u | e4]; [ | destruct e4]; cbn; eauto.
      * destruct e3; cbn; try (right; now split);
          left; (destruct (popen _) as [u | e4]; [ | destruct e4]); cbn; eauto.
    + destruct e2; cbn; try (right; now split); left; eauto.
  - destruct e1; cbn; try (right; now split); left; eauto.
Qed.

(** X21.  When the room cannot be created, or the token cannot be got,
    [run_bot] sleeps ten seconds, writes the error row, and then fails at
    the command line of the bot, where [room] or [token] is read without
    having been bound: it raises [UnboundLocalError] and starts no
    process. *)
Theorem run_bot_unbound (id run_number : Z) (e : exn) :
  is_Exception e = true ->
  let error_row :=
    WriteRow [CInt id; CStr "Rate Limit Error"; CStr current_time] in
  (create_room (room_params time) = Raise e ->
   run_bot time current_time create_room get_token get_room_from_url popen
     id run_number
   = (UnboundLocalError "room", [Sleep 10; error_row]))
  /\ (forall room,
        create_room (room_params time) = Ok room ->
        get_token (url room) 3600 true = Raise e ->
        run_bot time current_time create_room get_token get_room_from_url
          popen id run_number
        = (UnboundLocalError "token", [Sleep 10; error_row])).
Proof.
  intros Hexc error_row. unfold run_bot, create. split.
  - intros ->. now rewrite Hexc.
  - intros room -> Htok. change (60 * 60) with 3600. now rewrite Htok, Hexc.
Qed.

(** X22.  A bot is started exactly when the room and its token were got,
    whether or not the room information could be read and whether or not
    the start itself fails; the one command started is the command line
    built from the room's url, the token, the id and the run number. *)
Theorem run_bot_starts_bot (id run_number : Z) :
  (forall room token,
     create_room (room_params time) = Ok room ->
     get_token (url room) 3600 true = Ok token ->
     (forall e, get_room_from_url (url room) = Raise e -> is_Exception e = true) ->
     commands (snd (run_bot time current_time create_room get_token
                      get_room_from_url popen id run_number))
     = [bot_proc room token id run_number])
  /\ (commands (snd (run_bot time current_time create_room get_token
                       get_room_from_url popen id run_number))
      <> [] ->
      exists room token,
        create_room (room_params time) = Ok room
        /\ get_token (url room) 3600 true = Ok token).
Proof.
  unfold run_bot, create. change (60 * 60) with 3600. split.
  - intros room token -> -> Hexc.
    destruct (get_room_from_url _) as [info | e3].
    + destruct (popen _) as [u | e4]; [ | destruct e4]; reflexivity.
    + rewrite (Hexc e3 eq_refl).
      destruct (popen _) as [u | e4]; [ | destruct e4]; reflexivity.
  - destruct (create_room _) as [room | e1] eqn:E1.
    + destruct (get_token _ _ _) as [token | e2] eqn:E2.
      * intros _. now exists room, token.
      * destruct e2; cbn; intros H; exfalso; now apply H.
    + destruct e1; cbn; intros H; exfalso; now apply H.
Qed.

End BatchDemoFacts.

(** ** The further properties on concrete inputs *)

Section MoreRuns.
Import Py Frames Samples MoreSamples.
#[local] Existing Instance RefLib.lib.

Lemma deserialize_not_an_envelope_witness :
  fst (Exotel.deserialize serializer_S list_text) = Raise TypeError.
Proof.
  apply (proj1 (deserialize_not_an_envelope (L := RefLib.lib) serializer_S list_text
                  (JArray [JInt 1; JInt 2])
                  ltac:(vm_compute; reflexivity))).
  intros fields. discriminate.
Defined.

Lemma deserialize_broken_media_witness :
  fst (Exotel.deserialize serializer_S media_without_payload)
  = Raise (KeyError "payload").
Proof.
  apply (proj2 (proj2 (deserialize_broken_media (L := RefLib.lib) serializer_S media_without_payload
                         [("event", JString "media"); ("media", JObject [])]
                         ltac:(vm_compute; reflexivity) eq_refl)) []);
    reflexivity.
Defined.

Lemma deserialize_ignores_stream_witness :
  fst (Exotel.deserialize serializer_S media_stream_a)
  = fst (Exotel.deserialize (Exotel.__init__ "B" None) media_no_stream).
Proof.
  apply (deserialize_ignores_stream (L := RefLib.lib) serializer_S (Exotel.__init__ "B" None)
           media_stream_a media_no_stream
           [("event", JString "media"); ("streamSid", JString "A");
            ("media", JObject [("payload", JString "//8=")])]
           [("event", JString "media");
            ("media", JObject [("payload", JString "//8=")])]);
    vm_compute; reflexivity.
Defined.

Lemma serialize_ignores_channels_witness :
  Exotel.serialize serializer_S (AudioRawFrame mono_8k)
  = Exotel.serialize serializer_S (AudioRawFrame stereo_8k).
Proof.
  apply (serialize_ignores_channels (L := RefLib.lib) serializer_S mono_8k stereo_8k); reflexivity.
Defined.

Lemma round_trip_not_audio_witness :
  Exotel.round_trip serializer_S StartInterruptionFrame = Ok None.
Proof.
  apply (round_trip_not_audio (L := RefLib.lib) serializer_S StartInterruptionFrame).
  - reflexivity.
  - intros a. discriminate.
Defined.

Lemma frames_forwarded_in_order_witness :
  Idle.pushed (Idle.run mixed_run (Idle.__init__ 3 0))
  = [(UserStartedSpeakingFrame, DOWNSTREAM); (BotSpeakingFrame, UPSTREAM);
     (TextFrame "a", DOWNSTREAM)].
Proof.
  apply (frames_forwarded_in_order mixed_run (Idle.__init__ 3 0)). reflexivity.
Defined.

Lemma end_frame_not_forwarded_witness :
  fst (Idle.process_frame EndFrame DOWNSTREAM (Idle.__init__ 3 0))
  = Raise CancelledError
  /\ Idle.pushed (snd (Idle.process_frame EndFrame DOWNSTREAM (Idle.__init__ 3 0)))
     = []
  /\ Idle._running (snd (Idle.process_frame EndFrame DOWNSTREAM (Idle.__init__ 3 0)))
     = false.
Proof.
  apply (end_frame_not_forwarded EndFrame DOWNSTREAM (Idle.__init__ 3 0));
    [reflexivity | now left].
Defined.

Lemma idle_calls_periodic_witness :
  Idle.calls (Idle.history (Idle.run seven_ticks (Idle.__init__ 3 0))) = [6; 3].
Proof.
  apply (idle_calls_periodic 3 0 seven_ticks); reflexivity.
Defined.

Lemma idle_call_within_timeout_witness :
  exists t,
    Idle.now (Idle.run speech_run (Idle.__init__ 3 0)) < t
      <= Idle.now (Idle.run speech_run (Idle.__init__ 3 0)) + 3
    /\ In (Idle.Called t)
          (Idle.history (Idle.run quiet_run (Idle.run speech_run (Idle.__init__ 3 0)))).
Proof.
  apply (idle_call_within_timeout 3 0 speech_run quiet_run); try reflexivity.
  vm_compute. discriminate.
Defined.

Lemma silent_while_interrupted_witness :
  Idle.calls (Idle.history (Idle.run seven_ticks speaking_3))
  = Idle.calls (Idle.history speaking_3)
  /\ Idle._interrupted (Idle.run seven_ticks speaking_3) = true.
Proof.
  apply (silent_while_interrupted seven_ticks speaking_3); reflexivity.
Defined.

Lemma cleanup_is_final_witness :
  Idle.calls (Idle.history (Idle.run late_run (snd (Idle.cleanup waiting_3)))) = []
  /\ Idle.stopped (Idle._idle_task (Idle.run late_run (snd (Idle.cleanup waiting_3))))
     = true
  /\ Idle._running (snd (Idle.cleanup waiting_3)) = true
  /\ (Idle._running waiting_3 = true ->
      Idle._interrupted
        (snd (Idle.process_frame UserStartedSpeakingFrame DOWNSTREAM
                (snd (Idle.cleanup waiting_3))))
      = true).
Proof.
  apply (cleanup_is_final waiting_3 late_run DOWNSTREAM). now left.
Defined.

Lemma flag_follows_speech_witness :
  Idle._interrupted (Idle.run speech_run (Idle.__init__ 3 0))
  = IdleMore.user_speaking (Idle.history (Idle.run speech_run (Idle.__init__ 3 0))).
Proof.
  apply (flag_follows_speech 3 0 speech_run). reflexivity.
Defined.

Lemma calls_spaced_witness : 3 + 3 <= 6.
Proof.
  apply (calls_spaced 3 0 seven_ticks [] [Idle.Called 3] 6 3);
    [reflexivity | now left].
Defined.

Lemma dialout_retry_witness :
  DialoutBot.on_call_state_updated int_of_string flaky_dialout delete_ok
    "https://example.daily.co/room" "7" "joined"
  = (Ok (Some "dialout-1"),
     [DialoutBot.StartDialout (DialoutBot.settings "+19499870006");
      DialoutBot.Sleep 1;
      DialoutBot.StartDialout (DialoutBot.settings "+19499870006");
      DialoutBot.Sleep 2;
      DialoutBot.StartDialout (DialoutBot.settings "+19499870006")]).
Proof.
  assert (Hfail : forall j : nat, (j < 2)%nat ->
            exists e,
              flaky_dialout j (DialoutBot.settings (DialoutBot.get_phone_number 7))
              = Raise e /\ Scripts.is_Exception e = true).
  { intros j Hj. exists ValueError. split; [ | reflexivity].
    destruct j as [ | [ | j]]; try reflexivity. lia. }
  apply (proj1 (proj2 (dialout_retry int_of_string flaky_dialout delete_ok
                         "https://example.daily.co/room" "7" 7 2 eq_refl
                         (le_S _ _ (le_n 2)) Hfail)));
    reflexivity || apply le_n.
Defined.

Lemma dialout_bad_call_id_witness :
  DialoutBot.on_call_state_updated int_of_string dead_dialout delete_ok
    "https://example.daily.co/room" "seven" "joined"
  = (Ok None, [DialoutBot.Sleep 1; DialoutBot.Sleep 2; DialoutBot.Sleep 4]).
Proof.
  apply (dialout_bad_call_id int_of_string dead_dialout delete_ok
           "https://example.daily.co/room" "seven" ValueError); reflexivity.
Defined.

Lemma run_bot_unbound_witness :
  BatchDemo.run_bot 0 "2024-01-01 00:00:00.000" room_fails token_ok info_ok
    popen_ok 5 2
  = (BatchDemo.UnboundLocalError "room",
     [BatchDemo.Sleep 10;
      BatchDemo.WriteRow [BatchDemo.CInt 5; BatchDemo.CStr "Rate Limit Error";
                          BatchDemo.CStr "2024-01-01 00:00:00.000"]]).
Proof.
  apply (proj1 (run_bot_unbound 0 "2024-01-01 00:00:00.000" room_fails token_ok
                  info_ok popen_ok 5 2 ValueError eq_refl)).
  reflexivity.
Defined.

Example run_bot_command :
  BatchDemo.commands
    (snd (BatchDemo.run_bot 0 "2024-01-01 00:00:00.000" room_ok token_ok
            info_fails popen_ok 5 2))
  = ["python3 -m batch_dialout_bot -u https://example.daily.co/room -t tok -i 5 -r 2"].
Proof. reflexivity. Qed.

End MoreRuns.
